(** * hass_nibe: the Nibe Uplink integration ([__init__.py])

    A shallow embedding of the integration's entry point: the per-system
    polling code of [NibeSystem] ([update_notifications], [update_statuses],
    [load], [unload]), the [AsyncExitStack]-based resource chain of
    [async_setup_entry] / [async_unload_entry], and the [skip_reload]
    counter shared by [async_update_listener] and [access_data_write].

    The program is asynchronous but runs on one cooperative event loop; an
    [await] of an external collaborator is modelled as a call whose outcome
    is supplied by a [World] (an oracle for everything outside this file:
    the uplink client, the session, the host).  Python objects that are
    mutated in place ([NibeSystem] instances, [NibeData]) live in an
    explicit store. *)

From Stdlib Require Import ZArith DecimalString DecimalZ DecimalPos.
From stdpp Require Import gmap strings list fin_maps.

(** ** Remote payloads *)

(** A notification as returned by [uplink.get_notifications]: the code
    reads [x["notificationId"]], [x["info"]["title"]] and
    [x["info"]["description"]].  Whatever further keys the record has are
    never read, but they take part in the comparison of records made by
    [k not in self.notice]; they travel along as [other_keys]. *)
Record Info := { title : string; description : string }.

Record Notification := {
  notificationId : Z;
  info : Info;
  other_keys : list (string * string)
}.

(** A parameter of a status icon; only [parameter["parameterId"]] is read,
    the remaining fields travel along as payload. *)
Record Param := {
  parameterId : Z;
  name : string;
  displayValue : string;
  rawValue : Z
}.

(** A status icon group: [status_icon["title"]], [status_icon["parameters"]]. *)
Record StatusIcon := { icon_title : string; parameters : list Param }.

(** The description returned by [uplink.get_system]. *)
Record RemoteSystem := { productName : string; system_name : string }.

#[global] Instance Info_eq_dec : EqDecision Info.
Proof. solve_decision. Defined.

#[global] Instance Notification_eq_dec : EqDecision Notification.
Proof. solve_decision. Defined.

#[global] Instance Param_eq_dec : EqDecision Param.
Proof. solve_decision. Defined.

(** ** Exceptions, events, callbacks *)

Inductive Exn :=
| RemoteFetchError        (* an uplink call failed *)
| SessionError            (* UplinkSession.__aenter__/__aexit__ raised *)
| UplinkError             (* Uplink.__aenter__/__aexit__ raised *)
| UnloadPlatformsError    (* Exception("Unable to unload all platforms") *)
| AttributeError          (* a dangling object reference *)
| UnboundLocalError.      (* a local read after a swallowed exception *)

Inductive Signal := SIGNAL_PARAMETERS_UPDATED | SIGNAL_STATUSES_UPDATED.

Inductive SignalArg :=
| ArgParameters (p : gmap Z Param)
| ArgStatuses (s : gset string).

(** Which of the two polls a periodic task runs. *)
Inductive Poll := PollNotifications | PollStatuses.

(** Everything the integration asks of its collaborators, in program
    order.  [EvSessionEnter] and [EvUplinkEnter] record an [__aenter__]
    that returned, [EvTrackDeltaTime] a periodic task with the handle of
    its cancel function, [EvUnsub] a call of such a function, and
    [EvSystemUnload] marks a call of [NibeSystem.unload]. *)
Inductive Event :=
| EvAddUpdateListener
| EvRemoveUpdateListener
| EvSessionEnter
| EvSessionExit
| EvUplinkEnter
| EvUplinkExit
| EvGetOrCreateDevice (sid : Z) (model : string) (dev_name : string)
| EvNotificationCreate (message : string) (ntitle : string) (nid : string)
| EvNotificationDismiss (nid : string)
| EvDispatcherSend (sig : Signal) (sid : Z) (arg : SignalArg)
| EvTrackDeltaTime (handle : nat) (sid : Z) (p : Poll)
| EvUnsub (handle : nat)
| EvForwardEntrySetup (platform : string)
| EvForwardEntryUnload (platform : string)
| EvSystemUnload (sid : Z)
| EvUpdateEntry
| EvReload.

(** An entry of [AsyncExitStack._exit_callbacks].  The closures pushed by
    this program are defunctionalised: the unsubscribe function returned by
    [add_update_listener], the [__aexit__] of the two external context
    managers, and the two generators of this file suspended at their
    [yield] (the first one holding its [systems], as addresses). *)
Inductive Callback :=
| CbUpdateListener
| CbSession
| CbUplink
| CbSetupSystems (systems : list nat)
| CbForwardPlatforms.

(** ** Program state *)

Record NibeSystem := {
  system_id : Z;
  system : option RemoteSystem;
  notice : list Notification;
  statuses : gset string;
  _unsub : list nat
}.

Record NibeData := {
  session : bool;            (* [session is not None] *)
  uplink : bool;             (* [uplink is not None] *)
  systems : list nat;        (* the values of the [systems] dict *)
  stack : list Callback;     (* [stack._exit_callbacks], oldest first *)
  skip_reload : Z
}.

Record State := {
  heap : gmap nat NibeSystem;   (* NibeSystem objects, by address *)
  next_addr : nat;
  timers : list nat;            (* periodic tasks still scheduled on the host *)
  next_handle : nat;
  data : NibeData               (* hass.data[DATA_NIBE] *)
}.

(** The collaborators' answers during one run of an entry point. *)
Record World := {
  get_system : Z → option RemoteSystem;
  get_notifications : Z → option (list Notification);
  get_status : Z → option (list StatusIcon);
  session_aenter : option Exn;
  session_aexit : option Exn;
  uplink_aenter : option Exn;
  uplink_aexit : option Exn;
  forward_entry_unload : string → bool;
  update_entry : bool
}.

(** ** A state, trace and exception monad *)

Inductive Res (A : Type) :=
| Ok (a : A)
| Raise (e : Exn).

Arguments Ok {A} a.
Arguments Raise {A} e.

Definition M (A : Type) : Type := World → State → Res A * State * list Event.

Definition ret {A} (a : A) : M A := λ _ s, (Ok a, s, []).

Definition raise {A} (e : Exn) : M A := λ _ s, (Raise e, s, []).

Definition bind {A B} (m : M A) (f : A → M B) : M B :=
  λ w s,
    match m w s with
    | (Ok a, s1, t1) =>
        match f a w s1 with
        | (r, s2, t2) => (r, s2, t1 ++ t2)
        end
    | (Raise e, s1, t1) => (Raise e, s1, t1)
    end.

(** [try: ... except BaseException] as a value. *)
Definition try {A} (m : M A) : M (Res A) :=
  λ w s, match m w s with (r, s1, t1) => (Ok r, s1, t1) end.

Definition emit (e : Event) : M unit := λ _ s, (Ok tt, s, [e]).

Definition ask : M World := λ w s, (Ok w, s, []).

Definition get : M State := λ _ s, (Ok s, s, []).

Definition put (s : State) : M unit := λ _ _, (Ok tt, s, []).

Definition modify (f : State → State) : M unit := λ _ s, (Ok tt, f s, []).

Notation "'let*' x ':=' m 'in' k" := (bind m (λ x, k))
  (at level 10, x name, m at level 100, k at level 200,
   format "'[v' 'let*'  x  :=  m  'in' '/' k ']'").
Notation "'let*' ' p ':=' m 'in' k" := (bind m (λ x, match x with p => k end))
  (at level 10, p pattern, m at level 100, k at level 200).
Notation "m '>>' k" := (bind m (λ _, k))
  (at level 100, k at level 200, right associativity).

Fixpoint for_each {A} (l : list A) (body : A → M unit) : M unit :=
  match l with
  | [] => ret tt
  | x :: l' => body x >> for_each l' body
  end.

Definition run_result {A} (r : Res A * State * list Event) : Res A := r.1.1.
Definition run_state {A} (r : Res A * State * list Event) : State := r.1.2.
Definition run_trace {A} (r : Res A * State * list Event) : list Event := r.2.

(** ** Accessors for the mutable objects *)

Definition set_heap (h : gmap nat NibeSystem) (s : State) : State :=
  {| heap := h; next_addr := next_addr s; timers := timers s;
     next_handle := next_handle s; data := data s |}.

Definition set_data (d : NibeData) (s : State) : State :=
  {| heap := heap s; next_addr := next_addr s; timers := timers s;
     next_handle := next_handle s; data := d |}.

Definition deref (self : nat) : M NibeSystem :=
  let* s := get in
  match heap s !! self with
  | Some o => ret o
  | None => raise AttributeError
  end.

Definition assign (self : nat) (o : NibeSystem) : M unit :=
  modify (λ s, set_heap (<[self := o]> (heap s)) s).

Definition set_notice (n : list Notification) (o : NibeSystem) : NibeSystem :=
  {| system_id := system_id o; system := system o; notice := n;
     statuses := statuses o; _unsub := _unsub o |}.

Definition set_statuses (st : gset string) (o : NibeSystem) : NibeSystem :=
  {| system_id := system_id o; system := system o; notice := notice o;
     statuses := st; _unsub := _unsub o |}.

Definition set_system (r : RemoteSystem) (o : NibeSystem) : NibeSystem :=
  {| system_id := system_id o; system := Some r; notice := notice o;
     statuses := statuses o; _unsub := _unsub o |}.

Definition set_unsub (u : list nat) (o : NibeSystem) : NibeSystem :=
  {| system_id := system_id o; system := system o; notice := notice o;
     statuses := statuses o; _unsub := u |}.

(** An awaited uplink call: the world answers, [None] is a failed fetch. *)
Definition await_fetch {A} (call : World → option A) : M A :=
  let* w := ask in
  match call w with
  | Some a => ret a
  | None => raise RemoteFetchError
  end.

(** ** NibeSystem.update_notifications *)

(** Python's [str] of an [int]: decimal digits, with a minus sign when
    negative. *)
Definition str (n : Z) : string := NilZero.string_of_int (Z.to_int n).

(** ["nibe:{}".format(x["notificationId"])] *)
Definition notification_key (x : Notification) : string :=
  "nibe:" +:+ str (notificationId x).

(** [[k for k in xs if k not in ys]]: Python's [in] on a list compares
    elements with [==], which on dicts is equality of all items. *)
Definition not_in (xs ys : list Notification) : list Notification :=
  filter (λ k, k ∉ ys) xs.

(** [persistent_notification.async_create(hass, message, title, id)] and
    [persistent_notification.async_dismiss(hass, id)] as the poll calls them. *)
Definition async_create (x : Notification) : Event :=
  EvNotificationCreate (description (info x)) (title (info x))
    (notification_key x).

Definition async_dismiss (x : Notification) : Event :=
  EvNotificationDismiss (notification_key x).

Definition update_notifications (self : nat) : M unit :=
  let* o := deref self in
  let* new := await_fetch (λ w, get_notifications w (system_id o)) in
  let added := not_in new (notice o) in
  let removed := not_in (notice o) new in
  assign self (set_notice new o) >>
  for_each added (λ x, emit (async_create x)) >>
  for_each removed (λ x, emit (async_dismiss x)).

(** ** NibeSystem.update_statuses *)

(** The body of the [for status_icon in status_icons] loop, on the two
    locals [parameters] and [statuses]. *)
Definition status_icon_step (acc : gmap Z Param * gset string)
    (status_icon : StatusIcon) : gmap Z Param * gset string :=
  (foldl (λ ps parameter, <[parameterId parameter := parameter]> ps)
     acc.1 (parameters status_icon),
   acc.2 ∪ {[icon_title status_icon]}).

Definition scan_status_icons (status_icons : list StatusIcon)
    : gmap Z Param * gset string :=
  foldl status_icon_step (∅, ∅) status_icons.

Definition update_statuses (self : nat) : M unit :=
  let* o := deref self in
  let* status_icons := await_fetch (λ w, get_status w (system_id o)) in
  let '(ps, sts) := scan_status_icons status_icons in
  assign self (set_statuses sts o) >>
  emit (EvDispatcherSend SIGNAL_PARAMETERS_UPDATED (system_id o) (ArgParameters ps)) >>
  emit (EvDispatcherSend SIGNAL_STATUSES_UPDATED (system_id o) (ArgStatuses sts)).

(** ** The host's periodic scheduler *)

(** [async_track_delta_time(hass, SCAN_INTERVAL, callback)]: the host
    schedules the callback and returns the function that cancels it. *)
Definition async_track_delta_time (sid : Z) (p : Poll) : M nat :=
  let* s := get in
  let h := next_handle s in
  put {| heap := heap s; next_addr := next_addr s; timers := timers s ++ [h];
         next_handle := S h; data := data s |} >>
  emit (EvTrackDeltaTime h sid p) >>
  ret h.

(** Calling such a cancel function. *)
Definition unsub_call (h : nat) : M unit :=
  modify (λ s, {| heap := heap s; next_addr := next_addr s;
                  timers := filter (λ h', h' ≠ h) (timers s);
                  next_handle := next_handle s; data := data s |}) >>
  emit (EvUnsub h).

(** ** NibeSystem: construction, load, unload *)

(** [NibeSystem(hass, uplink, int(system_id), system_cfg, entry.entry_id)] *)
Definition NibeSystem_init (sid : Z) : M nat :=
  let* s := get in
  let self := next_addr s in
  let o := {| system_id := sid; system := None; notice := [];
              statuses := ∅; _unsub := [] |} in
  put {| heap := <[self := o]> (heap s); next_addr := S self;
         timers := timers s; next_handle := next_handle s; data := data s |} >>
  ret self.

(** [self._unsub.append(h)] *)
Definition unsub_append (self : nat) (h : nat) : M unit :=
  let* o := deref self in
  assign self (set_unsub (_unsub o ++ [h]) o).

Definition load (self : nat) : M unit :=
  let* o := deref self in
  let* r := await_fetch (λ w, get_system w (system_id o)) in
  assign self (set_system r o) >>
  emit (EvGetOrCreateDevice (system_id o) (productName r)
          (system_name r +:+ " - " +:+ str (system_id o))) >>
  update_notifications self >>
  update_statuses self >>
  let* h1 := async_track_delta_time (system_id o) PollNotifications in
  unsub_append self h1 >>
  let* h2 := async_track_delta_time (system_id o) PollStatuses in
  unsub_append self h2.

Definition unload (self : nat) : M unit :=
  let* o := deref self in
  emit (EvSystemUnload (system_id o)) >>
  for_each (rev (_unsub o)) unsub_call >>
  assign self (set_unsub [] o).

(** ** asyncio.gather *)

(** [await asyncio.gather] of a list of tasks, without
    [return_exceptions]: every task is started; the first exception is
    raised to the awaiting caller and the other tasks are neither
    cancelled nor awaited, they keep running.  Here the tasks run to
    completion one after the other, in list order, and the first failure
    in that order is the one raised: the schedule of an uplink that
    answers every call at once.  In another schedule a task can still be
    in flight when the failure is raised. *)
Fixpoint gather {A} (tasks : list (M A)) : M (list A) :=
  match tasks with
  | [] => ret []
  | t :: ts =>
      let* r := try t in
      let* rs := try (gather ts) in
      match r, rs with
      | Ok a, Ok l => ret (a :: l)
      | Raise e, _ => raise e
      | Ok _, Raise e => raise e
      end
  end.

Fixpoint map_m {A B} (f : A → M B) (l : list A) : M (list B) :=
  match l with
  | [] => ret []
  | x :: l' =>
      let* y := f x in
      let* ys := map_m f l' in
      ret (y :: ys)
  end.

(** ** The two context managers of this file *)

(** An [@asynccontextmanager] generator is split at its [yield]: the part
    before it is [__aenter__], the part after it is what [__aexit__] runs.
    [__aexit__] with an exception throws it into the generator at the
    [yield]; neither generator has a [try] around its [yield], so the
    exception leaves the generator at once, the code after the [yield] is
    not run, and [__aexit__] returns [False] (the exception it got is the
    one that came back). *)

Definition async_setup_systems_enter (cfg_systems : list Z) : M (list nat) :=
  let* systems := map_m NibeSystem_init cfg_systems in
  gather (load <$> systems) >>
  ret systems.

Definition async_setup_systems_exit (systems : list nat) (exc : option Exn)
    : M bool :=
  match exc with
  | None => gather (unload <$> systems) >> ret false
  | Some _ => ret false
  end.

Definition FORWARD_PLATFORMS : list string :=
  ["climate"; "switch"; "sensor"; "binary_sensor"; "water_heater"; "fan"].

(** [hass.async_add_job(...)] only schedules the forwarded setup. *)
Definition async_forward_platforms_enter : M unit :=
  for_each FORWARD_PLATFORMS (λ platform, emit (EvForwardEntrySetup platform)).

Definition async_forward_entry_unload (platform : string) : M bool :=
  emit (EvForwardEntryUnload platform) >>
  let* w := ask in
  ret (forward_entry_unload w platform).

Definition all (l : list bool) : bool := forallb id l.

Definition async_forward_platforms_exit (exc : option Exn) : M bool :=
  match exc with
  | None =>
      let* results := gather (async_forward_entry_unload <$> FORWARD_PLATFORMS) in
      if negb (all results) then raise UnloadPlatformsError else ret false
  | Some _ => ret false
  end.

(** ** AsyncExitStack *)

Definition set_stack (cbs : list Callback) : M unit :=
  modify (λ s, set_data {| session := session (data s); uplink := uplink (data s);
                           systems := systems (data s); stack := cbs;
                           skip_reload := skip_reload (data s) |} s).

(** [self._exit_callbacks.append(...)] *)
Definition push (cb : Callback) : M unit :=
  let* s := get in
  set_stack (stack (data s) ++ [cb]).

(** Running one exit callback with the exception in flight, if any.  The
    result is the callback's truth value (true swallows the exception).
    [stack.callback(f)] wraps [f] so that it ignores the exception and
    returns [None]; the two external [__aexit__] close whatever they are
    given and answer as the world says. *)
Definition run_callback (cb : Callback) (exc : option Exn) : M bool :=
  match cb with
  | CbUpdateListener => emit EvRemoveUpdateListener >> ret false
  | CbSession =>
      emit EvSessionExit >>
      let* w := ask in
      match session_aexit w with Some e => raise e | None => ret false end
  | CbUplink =>
      emit EvUplinkExit >>
      let* w := ask in
      match uplink_aexit w with Some e => raise e | None => ret false end
  | CbSetupSystems systems => async_setup_systems_exit systems exc
  | CbForwardPlatforms => async_forward_platforms_exit exc
  end.

(** The [while self._exit_callbacks] loop of [__aexit__]; [cbs] is the
    stack in pop order, the locals are [exc_details], [suppressed_exc] and
    [pending_raise]. *)
Fixpoint exit_loop (cbs : list Callback) (exc_details : option Exn)
    (suppressed_exc pending_raise : bool) : M (option Exn * bool * bool) :=
  match cbs with
  | [] => ret (exc_details, suppressed_exc, pending_raise)
  | cb :: rest =>
      set_stack (rev rest) >>
      let* r := try (run_callback cb exc_details) in
      match r with
      | Ok true => exit_loop rest None true false
      | Ok false => exit_loop rest exc_details suppressed_exc pending_raise
      | Raise e => exit_loop rest (Some e) suppressed_exc true
      end
  end.

(** [AsyncExitStack.__aexit__] on [data.stack], given the exception in flight. *)
Definition aexit (exc : option Exn) : M bool :=
  let* s := get in
  let* '(exc_details, suppressed_exc, pending_raise) :=
    exit_loop (rev (stack (data s))) exc false false in
  if pending_raise then
    match exc_details with
    | Some e => raise e
    | None => ret false
    end
  else ret (bool_decide (is_Some exc) && suppressed_exc).

(** [AsyncExitStack.aclose()] *)
Definition aclose : M unit := aexit None >> ret tt.

(** ** Entry points *)

Definition set_handles (sess upl : bool) (sys : list nat) : M unit :=
  modify (λ s, set_data {| session := sess; uplink := upl; systems := sys;
                           stack := stack (data s);
                           skip_reload := skip_reload (data s) |} s).

Definition set_skip_reload (n : Z) : M unit :=
  modify (λ s, set_data {| session := session (data s); uplink := uplink (data s);
                           systems := systems (data s); stack := stack (data s);
                           skip_reload := n |} s).

(** [await stack.enter_async_context(cm)]: the exit is pushed only once
    [__aenter__] has returned. *)
Definition enter_async_context {A} (aenter : M A) (aexit_cb : A → Callback) : M A :=
  let* r := aenter in
  push (aexit_cb r) >>
  ret r.

(** [__aenter__] of the two external context managers; the event records
    that the resource is open. *)
Definition UplinkSession_aenter : M unit :=
  let* w := ask in
  match session_aenter w with
  | Some e => raise e
  | None => emit EvSessionEnter
  end.

Definition Uplink_aenter : M unit :=
  let* w := ask in
  match uplink_aenter w with
  | Some e => raise e
  | None => emit EvUplinkEnter
  end.

Definition async_update_listener : M unit :=
  let* s := get in
  if bool_decide (skip_reload (data s) = 0%Z) then emit EvReload
  else set_skip_reload (skip_reload (data s) - 1).

(** The closure handed to the session.  [async_update_entry] answers
    whether the entry changed; the listeners it notifies are started as
    tasks of their own, not called from inside it. *)
Definition access_data_write : M unit :=
  let* s := get in
  set_skip_reload (skip_reload (data s) + 1) >>
  emit EvUpdateEntry >>
  let* w := ask in
  let changed := update_entry w in
  if negb changed then
    let* s' := get in
    set_skip_reload (skip_reload (data s') - 1)
  else ret tt.

(** The body of [async with data.stack as stack], up to [pop_all]. *)
Definition acquire (cfg_systems : list Z) : M (list nat) :=
  emit EvAddUpdateListener >>
  push CbUpdateListener >>
  enter_async_context UplinkSession_aenter (λ _, CbSession) >>
  enter_async_context Uplink_aenter (λ _, CbUplink) >>
  let* systems := enter_async_context (async_setup_systems_enter cfg_systems)
                    CbSetupSystems in
  enter_async_context async_forward_platforms_enter (λ _, CbForwardPlatforms) >>
  ret systems.

(** [cfg_systems] are the keys of the merged configuration's systems, as
    the integers [int(system_id)] makes of them.
    When the body succeeds, [data.stack = stack.pop_all()] moves the
    callbacks to a fresh stack that becomes [data.stack]; the stack of
    the [with] statement is left empty, so its [__aexit__] on leaving the
    block runs nothing.  When the body raises, [data.stack] still is the
    stack of the [with] statement and its [__aexit__] gets the exception;
    were the exception swallowed, the assignments after the block would
    read locals that were never bound. *)
Definition async_setup_entry (cfg_systems : list Z) : M bool :=
  let* r := try (acquire cfg_systems) in
  match r with
  | Ok systems =>
      set_handles true true systems >>
      ret true
  | Raise e =>
      let* swallowed := aexit (Some e) in
      if swallowed then raise UnboundLocalError else raise e
  end.

Definition async_unload_entry : M bool :=
  set_handles false false [] >>
  aclose >>
  ret true.

(** [async_setup]: [hass.data[DATA_NIBE] = NibeData(config)]. *)
Definition initial_data : NibeData :=
  {| session := false; uplink := false; systems := []; stack := [];
     skip_reload := 0 |}.

Definition initial_state : State :=
  {| heap := ∅; next_addr := 0; timers := []; next_handle := 0;
     data := initial_data |}.

(** ** The differ as the specification words it *)

(** Added and removed by identifier-set membership: the records of one
    sequence whose identifier is absent from the identifiers of the other. *)
Definition diff_by_id_added (old new : list Notification) : list Notification :=
  filter (λ k, notificationId k ∉ (notificationId <$> old)) new.

Definition diff_by_id_removed (old new : list Notification) : list Notification :=
  filter (λ k, notificationId k ∉ (notificationId <$> new)) old.

(** ** Concrete inputs *)

Definition note (id : Z) (t d : string) : Notification :=
  {| notificationId := id; info := {| title := t; description := d |};
     other_keys := [] |}.

(** The same notification with a key the poll never reads. *)
Definition note_at (id : Z) (t d occured : string) : Notification :=
  {| notificationId := id; info := {| title := t; description := d |};
     other_keys := [("occuredAt", occured)] |}.

Definition param (id : Z) (n v : string) (raw : Z) : Param :=
  {| parameterId := id; name := n; displayValue := v; rawValue := raw |}.

(** A controller for system [sid] holding the snapshot [old]. *)
Definition controller (sid : Z) (old : list Notification) : NibeSystem :=
  {| system_id := sid; system := None; notice := old; statuses := ∅;
     _unsub := [] |}.

(** A store with that controller at address 0. *)
Definition state_of (o : NibeSystem) : State :=
  {| heap := {[ 0 := o ]}; next_addr := 1; timers := []; next_handle := 0;
     data := initial_data |}.

Definition heat_pump : RemoteSystem :=
  {| productName := "F1155"; system_name := "home" |}.

(** A world in which every collaborator answers, with the given payloads. *)
Definition world (ns : option (list Notification)) (st : option (list StatusIcon))
    : World :=
  {| get_system := λ _, Some heat_pump;
     get_notifications := λ _, ns;
     get_status := λ _, st;
     session_aenter := None; session_aexit := None;
     uplink_aenter := None; uplink_aexit := None;
     forward_entry_unload := λ _, true;
     update_entry := true |}.

Definition quiet : World := world (Some []) (Some []).

(** System 2 cannot be fetched. *)
Definition system_2_down : World :=
  {| get_system := λ sid, if bool_decide (sid = 2%Z) then None else Some heat_pump;
     get_notifications := λ _, Some [];
     get_status := λ _, Some [];
     session_aenter := None; session_aexit := None;
     uplink_aenter := None; uplink_aexit := None;
     forward_entry_unload := λ _, true;
     update_entry := true |}.

(** The host cannot unload the fan platform. *)
Definition fan_stuck : World :=
  {| get_system := λ _, Some heat_pump;
     get_notifications := λ _, Some [];
     get_status := λ _, Some [];
     session_aenter := None; session_aexit := None;
     uplink_aenter := None; uplink_aexit := None;
     forward_entry_unload := λ platform, negb (String.eqb platform "fan");
     update_entry := true |}.

(** The entry update reports no change. *)
Definition unchanged_entry : World :=
  {| get_system := λ _, Some heat_pump;
     get_notifications := λ _, Some [];
     get_status := λ _, Some [];
     session_aenter := None; session_aexit := None;
     uplink_aenter := None; uplink_aexit := None;
     forward_entry_unload := λ _, true;
     update_entry := false |}.

(** The session cannot be opened; the client cannot be opened. *)
Definition session_down : World :=
  {| get_system := λ _, Some heat_pump;
     get_notifications := λ _, Some [];
     get_status := λ _, Some [];
     session_aenter := Some SessionError; session_aexit := None;
     uplink_aenter := None; uplink_aexit := None;
     forward_entry_unload := λ _, true;
     update_entry := true |}.

Definition uplink_down : World :=
  {| get_system := λ _, Some heat_pump;
     get_notifications := λ _, Some [];
     get_status := λ _, Some [];
     session_aenter := None; session_aexit := None;
     uplink_aenter := Some UplinkError; uplink_aexit := None;
     forward_entry_unload := λ _, true;
     update_entry := true |}.

Definition icons_example : list StatusIcon :=
  [ {| icon_title := "heating";
       parameters := [param 43084 "electrical addition" "0 kW" 0;
                      param 40004 "outdoor temp" "-1.5 C" (-15)] |};
    {| icon_title := "hot water";
       parameters := [param 40004 "outdoor temp" "-1.4 C" (-14)] |} ].

(** Two snapshots in which notification 1 changes its description. *)
Definition drift_old : list Notification := [note 1 "alarm" "low pressure"].

Definition drift_new : list Notification :=
  [note 1 "alarm" "low pressure, acknowledged"].

(** ** Everything that runs against [hass.data[DATA_NIBE]] *)

Inductive Call :=
| CallUpdateListener
| CallAccessDataWrite
| CallSetupEntry (cfg_systems : list Z)
| CallUnloadEntry
| CallUpdateNotifications (self : nat)
| CallUpdateStatuses (self : nat).

Definition call (c : Call) : M unit :=
  match c with
  | CallUpdateListener => async_update_listener
  | CallAccessDataWrite => access_data_write
  | CallSetupEntry cfg_systems => async_setup_entry cfg_systems >> ret tt
  | CallUnloadEntry => async_unload_entry >> ret tt
  | CallUpdateNotifications self => update_notifications self
  | CallUpdateStatuses self => update_statuses self
  end.

(** The states the integration can be in: [async_setup]'s state, and the
    state left by any call, each call in a world of its own and whether it
    returns or raises. *)
Inductive reachable : State → Prop :=
| reachable_initial : reachable initial_state
| reachable_call s c w : reachable s → reachable (run_state (call c w s)).

(** ** Frames *)

(** A computation all of whose runs relate the state before to the state
    after, whether they return or raise. *)
Definition preserves (R : relation State) {A} (m : M A) : Prop :=
  ∀ w s, R s (run_state (m w s)).

(** The counter is what it was. *)
Definition same_counter : relation State :=
  λ s s', skip_reload (data s') = skip_reload (data s).

(** No object has gone. *)
Definition more_heap : relation State :=
  λ s s', ∀ a, is_Some (heap s !! a) → is_Some (heap s' !! a).

(** No object has gone and [hass.data[DATA_NIBE]] is what it was. *)
Definition same_data : relation State :=
  λ s s', data s' = data s ∧ more_heap s s'.

(** A computation all of whose events satisfy [P], whether it returns or
    raises. *)
Definition emits (P : Event → Prop) {A} (m : M A) : Prop :=
  ∀ w s, Forall P (run_trace (m w s)).

(** ** The acquired chain *)

(** [data.stack] after [async_setup_entry] has run on an empty stack. *)
Definition chain (systems : list nat) : list Callback :=
  [CbUpdateListener; CbSession; CbUplink; CbSetupSystems systems;
   CbForwardPlatforms].

(** Every address in the list is that of an object. *)
Definition valid_refs (s : State) (systems : list nat) : bool :=
  forallb (λ a, bool_decide (is_Some (heap s !! a))) systems.

(** The events of [NibeSystem.unload]. *)
Definition controller_event (e : Event) : bool :=
  match e with
  | EvSystemUnload _ | EvUnsub _ => true
  | _ => false
  end.

(** The events that give a resource back. *)
Definition release_event (e : Event) : bool :=
  match e with
  | EvRemoveUpdateListener | EvSessionExit | EvUplinkExit
  | EvSystemUnload _ | EvUnsub _ | EvForwardEntryUnload _ => true
  | _ => false
  end.

(** The systems whose [unload] was called, in call order. *)
Definition unloaded (t : list Event) : list Z :=
  omap (λ e, match e with EvSystemUnload sid => Some sid | _ => None end) t.

(** The system ids of the controllers at the given addresses. *)
Definition system_ids (s : State) (systems : list nat) : list Z :=
  omap (λ a, system_id <$> heap s !! a) systems.

(** The events that take a resource. *)
Definition acquire_event (e : Event) : bool :=
  match e with
  | EvAddUpdateListener | EvSessionEnter | EvUplinkEnter
  | EvTrackDeltaTime _ _ _ | EvForwardEntrySetup _ => true
  | _ => false
  end.

(** The state after [push cb]. *)
Definition pushed (cb : Callback) (s : State) : State :=
  set_data {| session := session (data s); uplink := uplink (data s);
              systems := systems (data s); stack := stack (data s) ++ [cb];
              skip_reload := skip_reload (data s) |} s.

(** The entries held when the body of the [with] block raises, by the
    step that failed: the session, the client, or the controllers. *)
Definition held (w : World) : list Callback :=
  match session_aenter w, uplink_aenter w with
  | Some _, _ => [CbUpdateListener]
  | None, Some _ => [CbUpdateListener; CbSession]
  | None, None => [CbUpdateListener; CbSession; CbUplink]
  end.

(** With an exception in flight, what is held is released newest first. *)
Definition unwound (w : World) : list Event :=
  match session_aenter w, uplink_aenter w with
  | Some _, _ => [EvRemoveUpdateListener]
  | None, Some _ => [EvSessionExit; EvRemoveUpdateListener]
  | None, None => [EvUplinkExit; EvSessionExit; EvRemoveUpdateListener]
  end.

(** What [async_unload_entry] answers on an acquired chain: the last
    exception raised while unwinding, if any. *)
Definition release_outcome (w : World) : Res bool :=
  match session_aexit w with
  | Some e => Raise e
  | None =>
      match uplink_aexit w with
      | Some e => Raise e
      | None =>
          if all (forward_entry_unload w <$> FORWARD_PLATFORMS) then Ok true
          else Raise UnloadPlatformsError
      end
  end.

(** One configured system, set up where everything answers. *)
Definition one_system_up : State :=
  run_state (async_setup_entry [1%Z] quiet initial_state).

(** Three configured systems, set up where everything answers. *)
Definition three_systems_up : State :=
  run_state (async_setup_entry [1%Z; 2%Z; 3%Z] quiet initial_state).

(** ** Further inputs *)

(** Every uplink call for system [sid] answers. *)
Definition answers (w : World) (sid : Z) : bool :=
  bool_decide (is_Some (get_system w sid))
  && bool_decide (is_Some (get_notifications w sid))
  && bool_decide (is_Some (get_status w sid)).

(** Whether a run returned. *)
Definition returned {A} (r : Res A) : bool :=
  match r with Ok _ => true | Raise _ => false end.

(** A world in which the status fetch fails. *)
Definition status_down : World := world (Some []) None.

(** A controller that holds two cancel functions. *)
Definition loaded_controller : NibeSystem :=
  {| system_id := 7; system := Some heat_pump; notice := []; statuses := ∅;
     _unsub := [3; 4]%nat |}.

(** A store with that controller and the timers 1, 3, 4. *)
Definition loaded_state : State :=
  {| heap := {[ 0%nat := loaded_controller ]}; next_addr := 1;
     timers := [1; 3; 4]%nat; next_handle := 5; data := initial_data |}.

(** What [load] asks of the host before it schedules anything, by what
    the uplink answered: the device, then the first notification poll,
    then the first status poll. *)
Definition device_event (o : NibeSystem) (r : RemoteSystem) : Event :=
  EvGetOrCreateDevice (system_id o) (productName r)
    (system_name r +:+ " - " +:+ str (system_id o)).

Definition first_notifications (o : NibeSystem) (new : list Notification)
    : list Event :=
  (async_create <$> not_in new (notice o)) ++
  (async_dismiss <$> not_in (notice o) new).

Definition first_statuses (o : NibeSystem) (status_icons : list StatusIcon)
    : list Event :=
  [EvDispatcherSend SIGNAL_PARAMETERS_UPDATED (system_id o)
     (ArgParameters (scan_status_icons status_icons).1);
   EvDispatcherSend SIGNAL_STATUSES_UPDATED (system_id o)
     (ArgStatuses (scan_status_icons status_icons).2)].

(** The controller after a [load] that returned. *)
Definition loaded (o : NibeSystem) (r : RemoteSystem) (new : list Notification)
    (status_icons : list StatusIcon) (h : nat) : NibeSystem :=
  {| system_id := system_id o; system := Some r; notice := new;
     statuses := (scan_status_icons status_icons).2;
     _unsub := _unsub o ++ [h; S h] |}.

(** A store with an unloaded controller beside the timers 1, 3, 4. *)
Definition loaded_state_fresh : State :=
  {| heap := {[ 0%nat := controller 7 [] ]}; next_addr := 1;
     timers := [1; 3; 4]%nat; next_handle := 5; data := initial_data |}.

(** The cancel functions held by the controllers at the given addresses. *)
Definition handles_of (s : State) (systems : list nat) : list nat :=
  flat_map (λ a, default [] (_unsub <$> heap s !! a)) systems.

(** The addresses hold controllers for the given system ids, with no task
    scheduled yet. *)
Definition unloaded_controllers (s : State) (systems : list nat) (cfg : list Z)
    : Prop :=
  Forall2 (λ a sid, ∃ o, heap s !! a = Some o ∧ system_id o = sid ∧ _unsub o = [])
    systems cfg.

(** [n] runs of the same call, one after the other. *)
Definition times (n : nat) (m : M unit) : M unit :=
  for_each (replicate n tt) (λ _, m).

(** ** The configuration mappings *)

(** A Python [dict] with [str] keys: the items in insertion order, no key
    twice. *)
Definition Dict (V : Type) : Type := list (string * V).

Section config.
Context {V : Type}.

(** [d[k] = v]: a key that is present keeps its place and gets the new
    value, a new key goes last. *)
Fixpoint dict_set (k : string) (v : V) (d : Dict V) : Dict V :=
  match d with
  | [] => [(k, v)]
  | (k', v') :: d' =>
      if decide (k' = k) then (k, v) :: d' else (k', v') :: dict_set k v d'
  end.

(** [d.get(k)] *)
Fixpoint dict_get (k : string) (d : Dict V) : option V :=
  match d with
  | [] => None
  | (k', v') :: d' => if decide (k' = k) then Some v' else dict_get k d'
  end.

(** [d.keys()] *)
Definition dict_keys (d : Dict V) : list string := d.*1.

(** [value[item_key]] of an item that went through [key_schema], which
    requires the key and coerces it to [int]. *)
Variable item_key : V → Z.

(** [{str(value[item_key]): value for value in data}] *)
Definition list_to_dict (data : list V) : Dict V :=
  foldl (λ d value, dict_set (str (item_key value)) value d) [] data.

(** [{str(value[item_key]): value}] *)
Definition value_to_dict (value : V) : Dict V :=
  dict_set (str (item_key value)) value [].

(** [SYSTEM_SCHEMA({})], the configuration of a system nothing is said
    about. *)
Variable default_system : V.

(** [_get_merged_config] on the mapping [config[CONF_SYSTEMS]];
    [entry_systems] is [entry.data[CONF_SYSTEMS].keys()], or [None] when
    the entry has no such key.  [dict(config)] copies the outer mapping
    only: the systems mapping written here is the one [data.config]
    holds, and the result is its content after the call. *)
Definition _get_merged_config (config_systems : Dict V)
    (entry_systems : option (list string)) : Dict V :=
  match entry_systems with
  | Some keys =>
      foldl (λ config system,
               if bool_decide (system ∈ dict_keys config) then config
               else dict_set system default_system config)
        config_systems keys
  | None => config_systems
  end.

End config.

(** The handles of the periodic tasks started in a run, in start order. *)
Definition scheduled (t : list Event) : list nat :=
  omap (λ e, match e with EvTrackDeltaTime h _ _ => Some h | _ => None end) t.

(** * Properties *)

(** ** Running the monad *)

Lemma for_each_emit {A} (f : A → Event) (l : list A) w s :
  for_each l (λ x, emit (f x)) w s = (Ok tt, s, f <$> l).
Proof.
  induction l as [|x l IH]; [done|].
  cbn [for_each]. unfold bind at 1. cbn. by rewrite IH.
Qed.

(** ** The notification poll *)

Lemma update_notifications_fetched w s self o new :
  heap s !! self = Some o →
  get_notifications w (system_id o) = Some new →
  update_notifications self w s =
    (Ok tt, set_heap (<[self := set_notice new o]> (heap s)) s,
     (async_create <$> not_in new (notice o)) ++
     (async_dismiss <$> not_in (notice o) new)).
Proof.
  intros Ho Hf. unfold update_notifications, deref, await_fetch, assign.
  unfold bind, get, ask, modify. cbn. rewrite Ho. cbn. rewrite Hf. cbn.
  by rewrite !for_each_emit.
Qed.

Lemma update_notifications_not_fetched w s self o :
  heap s !! self = Some o →
  get_notifications w (system_id o) = None →
  update_notifications self w s = (Raise RemoteFetchError, s, []).
Proof.
  intros Ho Hf. unfold update_notifications, deref, await_fetch.
  unfold bind, get, ask. cbn. rewrite Ho. cbn. by rewrite Hf.
Qed.

Lemma elem_of_not_in (xs ys : list Notification) x :
  x ∈ not_in xs ys ↔ x ∈ xs ∧ x ∉ ys.
Proof. unfold not_in. rewrite list_elem_of_filter. tauto. Qed.

Lemma not_in_sublist (xs ys : list Notification) : not_in xs ys `sublist_of` xs.
Proof. apply sublist_filter. Qed.

(** Where equal identifiers mean equal records, membership of the record
    and membership of its identifier are the same test. *)
Lemma not_in_by_id (xs ys : list Notification) :
  (∀ x y, x ∈ xs → y ∈ ys → notificationId x = notificationId y → x = y) →
  not_in xs ys = filter (λ k, notificationId k ∉ (notificationId <$> ys)) xs.
Proof.
  intros Hid. unfold not_in. induction xs as [|x xs IH]; [done|].
  rewrite !filter_cons.
  rewrite IH by (intros ????; apply Hid; [by right|done]).
  destruct (decide (x ∉ ys)) as [Hx|Hx];
    destruct (decide (notificationId x ∉ notificationId <$> ys)) as [Hi|Hi];
    try done.
  - exfalso. apply dec_stable in Hi. apply list_elem_of_fmap in Hi as (y & Hxy & Hy).
    apply Hx. by rewrite (Hid x y (list_elem_of_here _ _) Hy Hxy).
  - exfalso. apply dec_stable in Hx. apply Hi, list_elem_of_fmap. eauto.
Qed.

(** The key is the identifier in decimal behind a fixed prefix, so equal
    keys come from equal identifiers. *)
Lemma str_inj (a b : Z) : str a = str b → a = b.
Proof.
  unfold str. intros H. apply DecimalZ.to_int_inj.
  assert (Hnn : ∀ z, Z.to_int z ≠ Decimal.Pos Decimal.Nil ∧
                      Z.to_int z ≠ Decimal.Neg Decimal.Nil).
  { intros [|p|p]; cbn; split; try discriminate;
      intros [=E]; by apply DecimalPos.Unsigned.to_uint_nonnil in E. }
  destruct (Hnn a) as [Ha1 Ha2], (Hnn b) as [Hb1 Hb2].
  pose proof (NilZero.isi _ Ha1 Ha2) as Ea.
  pose proof (NilZero.isi _ Hb1 Hb2) as Eb.
  rewrite H in Ea. congruence.
Qed.

Lemma notification_key_inj x y :
  notification_key x = notification_key y → notificationId x = notificationId y.
Proof.
  unfold notification_key. intros H.
  apply String.app_inj in H. by apply str_inj.
Qed.

(** A creation request carries the identifier, the title and the
    description, and nothing else of the record. *)
Lemma async_create_carries x y :
  async_create x = async_create y ↔
  notificationId x = notificationId y ∧ info x = info y.
Proof.
  unfold async_create. split.
  - intros H.
    assert (Hk : notification_key x = notification_key y) by congruence.
    assert (Hd : description (info x) = description (info y)) by congruence.
    assert (Ht : title (info x) = title (info y)) by congruence.
    apply notification_key_inj in Hk. split; [done|].
    destruct (info x), (info y); cbn in *. congruence.
  - intros [Hi Hf]. unfold notification_key. by rewrite Hi, Hf.
Qed.

(** C1, as the code has it.  The poll classifies by equality of whole
    records: added are the records of the new snapshot that do not occur
    in the old one, removed the records of the old snapshot that do not
    occur in the new one, each in the order of the sequence it is drawn
    from; a record that occurs unchanged in both is in neither.  Whenever
    equal identifiers across the two snapshots mean equal records, this is
    the classification by identifier-set membership. *)
Theorem update_notifications_classifies_by_record w s self o new :
  heap s !! self = Some o →
  get_notifications w (system_id o) = Some new →
  let old := notice o in
  let added := not_in new old in
  let removed := not_in old new in
  run_trace (update_notifications self w s) =
    (async_create <$> added) ++ (async_dismiss <$> removed)
  ∧ (∀ x, x ∈ added ↔ x ∈ new ∧ x ∉ old)
  ∧ (∀ x, x ∈ removed ↔ x ∈ old ∧ x ∉ new)
  ∧ added `sublist_of` new
  ∧ removed `sublist_of` old
  ∧ (∀ x, x ∈ old → x ∈ new → (x ∉ added) ∧ (x ∉ removed))
  ∧ ((∀ x y, x ∈ new → y ∈ old →
        notificationId x = notificationId y → x = y) →
     added = diff_by_id_added old new ∧ removed = diff_by_id_removed old new).
Proof.
  intros Ho Hf old added removed.
  rewrite (update_notifications_fetched w s self o new Ho Hf).
  split; [done|].
  split; [intros x; apply elem_of_not_in|].
  split; [intros x; apply elem_of_not_in|].
  split; [apply not_in_sublist|].
  split; [apply not_in_sublist|].
  split.
  - intros x Hold Hnew. subst added removed.
    rewrite !elem_of_not_in. tauto.
  - intros Hid. split.
    + apply not_in_by_id. done.
    + apply not_in_by_id. intros x y Hx Hy Hxy. symmetry. by apply Hid.
Qed.

Lemma update_notifications_classifies_by_record_witness :
  run_trace (update_notifications 0 (world (Some [note 2 "b" ""; note 3 "c" ""]) None)
               (state_of (controller 7 [note 1 "a" ""; note 2 "b" ""]))) =
    [async_create (note 3 "c" ""); async_dismiss (note 1 "a" "")].
Proof.
  apply (update_notifications_classifies_by_record
           (world (Some [note 2 "b" ""; note 3 "c" ""]) None)
           (state_of (controller 7 [note 1 "a" ""; note 2 "b" ""]))
           0 (controller 7 [note 1 "a" ""; note 2 "b" ""])
           [note 2 "b" ""; note 3 "c" ""]); reflexivity.
Defined.

(** C1 as stated fails: notification 1 is in both snapshots, its
    description differs, and the poll reports it both as added and as
    removed, where the differ by identifier reports nothing. *)
Lemma content_drift_is_classified_as_change :
  notificationId <$> drift_old = [1%Z]
  ∧ notificationId <$> drift_new = [1%Z]
  ∧ not_in drift_new drift_old = drift_new
  ∧ not_in drift_old drift_new = drift_old
  ∧ diff_by_id_added drift_old drift_new = []
  ∧ diff_by_id_removed drift_old drift_new = [].
Proof. repeat split; vm_compute; reflexivity. Qed.

(** C6.  When the fetch of the notification poll fails, the poll raises
    the fetch error, the whole state (so the controller's cached [notice])
    is what it was before, and nothing is requested of the host. *)
Theorem update_notifications_fetch_failure_leaves_state w s self o :
  heap s !! self = Some o →
  get_notifications w (system_id o) = None →
  update_notifications self w s = (Raise RemoteFetchError, s, []).
Proof. apply update_notifications_not_fetched. Qed.

Lemma update_notifications_fetch_failure_leaves_state_witness :
  update_notifications 0 (world None (Some [])) (state_of (controller 7 drift_old)) =
    (Raise RemoteFetchError, state_of (controller 7 drift_old), []).
Proof.
  apply (update_notifications_fetch_failure_leaves_state
           (world None (Some [])) (state_of (controller 7 drift_old)) 0
           (controller 7 drift_old)); reflexivity.
Defined.




(** The comparison is of whole records, also in the keys the requests do
    not carry: a fetched record that differs from a cached one in such a
    key only is an added record, and the creation requested for it is the
    one the cached record would get. *)
Lemma unread_key_drift_requests_create :
  run_trace (update_notifications 0
               (world (Some [note_at 1 "alarm" "low pressure" "08:00";
                             note_at 1 "alarm" "low pressure" "09:30"]) None)
               (state_of (controller 7 [note_at 1 "alarm" "low pressure" "08:00"]))) =
    [async_create (note_at 1 "alarm" "low pressure" "08:00")].
Proof. vm_compute. reflexivity. Qed.

(** ** The status poll *)

Lemma update_statuses_fetched w s self o status_icons :
  heap s !! self = Some o →
  get_status w (system_id o) = Some status_icons →
  update_statuses self w s =
    (Ok tt,
     set_heap (<[self := set_statuses (scan_status_icons status_icons).2 o]> (heap s)) s,
     [EvDispatcherSend SIGNAL_PARAMETERS_UPDATED (system_id o)
        (ArgParameters (scan_status_icons status_icons).1);
      EvDispatcherSend SIGNAL_STATUSES_UPDATED (system_id o)
        (ArgStatuses (scan_status_icons status_icons).2)]).
Proof.
  intros Ho Hf. unfold update_statuses, deref, await_fetch, assign.
  unfold bind, get, ask, modify, emit. cbn. rewrite Ho. cbn. rewrite Hf. cbn.
  by destruct (scan_status_icons status_icons) as [ps sts].
Qed.

(** The inner loop: the last parameter with a given id wins, an id not in
    the list keeps what the mapping had. *)
Lemma foldl_parameters_lookup (l : list Param) (acc : gmap Z Param) (pid : Z) :
  foldl (λ ps parameter, <[parameterId parameter := parameter]> ps) acc l !! pid =
    match last (filter (λ p, parameterId p = pid) l) with
    | Some p => Some p
    | None => acc !! pid
    end.
Proof.
  revert acc. induction l as [|x l IH]; intros acc; [done|].
  cbn [foldl]. rewrite IH, filter_cons.
  destruct (decide (parameterId x = pid)) as [->|Hne].
  - rewrite last_cons. destruct (last _); [done|]. by rewrite lookup_insert_eq.
  - destruct (last _); [done|]. by rewrite lookup_insert_ne.
Qed.

Lemma foldl_status_icon_step_parameters (icons : list StatusIcon)
    (acc : gmap Z Param * gset string) (pid : Z) :
  (foldl status_icon_step acc icons).1 !! pid =
    match last (filter (λ p, parameterId p = pid) (concat (parameters <$> icons))) with
    | Some p => Some p
    | None => acc.1 !! pid
    end.
Proof.
  revert acc. induction icons as [|i icons IH]; intros acc; [done|].
  cbn [foldl fmap list_fmap concat]. rewrite IH, filter_app, last_app.
  destruct (last (filter _ (concat _))); [done|].
  unfold status_icon_step. cbn [fst]. apply foldl_parameters_lookup.
Qed.

Lemma foldl_status_icon_step_statuses (icons : list StatusIcon)
    (acc : gmap Z Param * gset string) :
  (foldl status_icon_step acc icons).2 = acc.2 ∪ list_to_set (icon_title <$> icons).
Proof.
  revert acc. induction icons as [|i icons IH]; intros acc.
  - cbn. set_solver.
  - cbn [foldl fmap list_fmap list_to_set]. rewrite IH.
    unfold status_icon_step. cbn [snd]. set_solver.
Qed.

Lemma scan_status_icons_parameters (icons : list StatusIcon) (pid : Z) :
  (scan_status_icons icons).1 !! pid =
    last (filter (λ p, parameterId p = pid) (concat (parameters <$> icons))).
Proof.
  unfold scan_status_icons. rewrite foldl_status_icon_step_parameters.
  cbn [fst]. rewrite lookup_empty. by destruct (last _).
Qed.

Lemma scan_status_icons_statuses (icons : list StatusIcon) :
  (scan_status_icons icons).2 = list_to_set (icon_title <$> icons).
Proof.
  unfold scan_status_icons. rewrite foldl_status_icon_step_statuses.
  cbn [snd]. set_solver.
Qed.

(** C7.  A status poll whose fetch returned publishes exactly two events,
    whatever the controller had cached: first the parameters-updated
    signal with the system id and the parameter mapping, which sends an id
    to the last fetched parameter that carries it, then the
    statuses-updated signal with the system id and the status set, the set
    of the fetched titles.  A second poll that fetches the same data
    publishes the same two events again, although by then the cached set
    is the fetched one. *)
Theorem update_statuses_publishes_unconditionally w1 w2 s self o status_icons :
  heap s !! self = Some o →
  get_status w1 (system_id o) = Some status_icons →
  get_status w2 (system_id o) = Some status_icons →
  let first := update_statuses self w1 s in
  let second := update_statuses self w2 (run_state first) in
  ∃ (ps : gmap Z Param) (sts : gset string),
    run_trace first =
      [EvDispatcherSend SIGNAL_PARAMETERS_UPDATED (system_id o) (ArgParameters ps);
       EvDispatcherSend SIGNAL_STATUSES_UPDATED (system_id o) (ArgStatuses sts)]
    ∧ run_trace second = run_trace first
    ∧ (statuses <$> heap (run_state first) !! self) = Some sts
    ∧ sts = list_to_set (icon_title <$> status_icons)
    ∧ (∀ pid, ps !! pid =
         last (filter (λ p, parameterId p = pid)
                 (concat (parameters <$> status_icons)))).
Proof.
  intros Ho H1 H2 first second. subst first second.
  exists (scan_status_icons status_icons).1, (scan_status_icons status_icons).2.
  rewrite (update_statuses_fetched w1 s self o status_icons Ho H1).
  cbn [run_state run_trace fst snd].
  rewrite (update_statuses_fetched w2 _ self (set_statuses (scan_status_icons status_icons).2 o)
             status_icons); [|cbn; apply lookup_insert_eq|done].
  split; [done|]. split; [done|]. split.
  { cbn. by rewrite lookup_insert_eq. }
  split; [apply scan_status_icons_statuses|apply scan_status_icons_parameters].
Qed.

Lemma update_statuses_publishes_unconditionally_witness :
  ∃ (ps : gmap Z Param) (sts : gset string),
    run_trace (update_statuses 0 (world None (Some icons_example))
                 (run_state (update_statuses 0 (world None (Some icons_example))
                               (state_of (controller 7 []))))) =
      [EvDispatcherSend SIGNAL_PARAMETERS_UPDATED 7 (ArgParameters ps);
       EvDispatcherSend SIGNAL_STATUSES_UPDATED 7 (ArgStatuses sts)]
    ∧ ps !! 43084%Z = Some (param 43084 "electrical addition" "0 kW" 0)
    ∧ ps !! 40004%Z = Some (param 40004 "outdoor temp" "-1.4 C" (-14))
    ∧ sts = {[ "heating"; "hot water" ]}.
Proof.
  destruct (update_statuses_publishes_unconditionally
              (world None (Some icons_example)) (world None (Some icons_example))
              (state_of (controller 7 [])) 0 (controller 7 []) icons_example
              eq_refl eq_refl eq_refl)
    as (ps & sts & Ht1 & Ht2 & _ & Hs & Hp).
  exists ps, sts. split; [by rewrite Ht2|].
  split; [rewrite Hp; reflexivity|].
  split; [rewrite Hp; reflexivity|].
  rewrite Hs. cbn. set_solver.
Defined.

(** C8.  The status set cached and published by the poll is the set of
    the fetched groups' titles; the published parameter mapping sends an
    id to the last parameter carrying it in the groups' parameter lists
    taken in fetched order, and knows no id that no fetched parameter
    carries: it depends on the fetched list alone. *)
Theorem update_statuses_rebuilds_snapshot w s self o status_icons :
  heap s !! self = Some o →
  get_status w (system_id o) = Some status_icons →
  ∃ (ps : gmap Z Param) (sts : gset string),
    run_trace (update_statuses self w s) =
      [EvDispatcherSend SIGNAL_PARAMETERS_UPDATED (system_id o) (ArgParameters ps);
       EvDispatcherSend SIGNAL_STATUSES_UPDATED (system_id o) (ArgStatuses sts)]
    ∧ (statuses <$> heap (run_state (update_statuses self w s)) !! self) = Some sts
    ∧ sts = list_to_set (icon_title <$> status_icons)
    ∧ (∀ pid, ps !! pid =
         last (filter (λ p, parameterId p = pid)
                 (concat (parameters <$> status_icons))))
    ∧ (∀ pid p, ps !! pid = Some p →
         parameterId p = pid ∧
         ∃ icon, icon ∈ status_icons ∧ p ∈ parameters icon).
Proof.
  intros Ho Hf.
  exists (scan_status_icons status_icons).1, (scan_status_icons status_icons).2.
  rewrite (update_statuses_fetched w s self o status_icons Ho Hf).
  cbn [run_state run_trace fst snd].
  split; [done|]. split.
  { cbn. by rewrite lookup_insert_eq. }
  split; [apply scan_status_icons_statuses|].
  split; [apply scan_status_icons_parameters|].
  intros pid p. rewrite scan_status_icons_parameters. intros Hl.
  assert (Hin : p ∈ filter (λ p, parameterId p = pid) (concat (parameters <$> status_icons))).
  { apply last_Some in Hl as [l' ->]. set_solver. }
  apply list_elem_of_filter in Hin as [Hp Hin]. split; [done|].
  apply list_elem_of_In, in_concat in Hin as (l & Hl1 & Hl2).
  apply list_elem_of_In, list_elem_of_fmap in Hl1 as (icon & -> & Hicon).
  exists icon. split; [done|]. by apply list_elem_of_In.
Qed.

Lemma update_statuses_rebuilds_snapshot_witness :
  ∃ (ps : gmap Z Param) (sts : gset string),
    run_trace (update_statuses 0 (world None (Some icons_example))
                 (state_of (controller 7 []))) =
      [EvDispatcherSend SIGNAL_PARAMETERS_UPDATED 7 (ArgParameters ps);
       EvDispatcherSend SIGNAL_STATUSES_UPDATED 7 (ArgStatuses sts)]
    ∧ ps !! 40004%Z = Some (param 40004 "outdoor temp" "-1.4 C" (-14))
    ∧ ps !! 1%Z = None
    ∧ sts = {[ "heating"; "hot water" ]}.
Proof.
  destruct (update_statuses_rebuilds_snapshot
              (world None (Some icons_example)) (state_of (controller 7 []))
              0 (controller 7 []) icons_example eq_refl eq_refl)
    as (ps & sts & Ht & _ & Hs & Hp & _).
  exists ps, sts. split; [exact Ht|].
  split; [rewrite Hp; reflexivity|].
  split; [rewrite Hp; reflexivity|].
  rewrite Hs. cbn. set_solver.
Defined.

(** ** Frame rules *)

#[local] Instance same_counter_preorder : PreOrder same_counter.
Proof.
  split; [by intros s|]. intros s1 s2 s3 H12 H23. unfold same_counter in *. congruence.
Qed.

#[local] Instance more_heap_preorder : PreOrder more_heap.
Proof.
  split; [by intros s a Ha|]. intros s1 s2 s3 V12 V23 a Ha. by apply V23, V12.
Qed.

#[local] Instance same_data_preorder : PreOrder same_data.
Proof.
  split; [by intros s|]. intros s1 s2 s3 [H12 V12] [H23 V23].
  split; [congruence|]. by etrans.
Qed.

Section frame.
Context (R : relation State) `{!PreOrder R}.

Lemma preserves_ret {A} (a : A) : preserves R (ret a).
Proof. intros w s. apply reflexivity. Qed.

Lemma preserves_raise {A} e : preserves R (@raise A e).
Proof. intros w s. apply reflexivity. Qed.

Lemma preserves_emit e : preserves R (emit e).
Proof. intros w s. apply reflexivity. Qed.

Lemma preserves_ask : preserves R ask.
Proof. intros w s. apply reflexivity. Qed.

Lemma preserves_get : preserves R get.
Proof. intros w s. apply reflexivity. Qed.

Lemma preserves_modify (f : State → State) :
  (∀ s, R s (f s)) → preserves R (modify f).
Proof. intros Hf w s. apply Hf. Qed.

Lemma preserves_bind {A B} (m : M A) (f : A → M B) :
  preserves R m → (∀ a, preserves R (f a)) → preserves R (bind m f).
Proof.
  intros Hm Hf w s. unfold bind. specialize (Hm w s).
  destruct (m w s) as [[[a|e] s1] t1]; cbn in *; [|done].
  specialize (Hf a w s1).
  destruct (f a w s1) as [[r s2] t2]; cbn in *. by etrans.
Qed.

Lemma preserves_try {A} (m : M A) : preserves R m → preserves R (try m).
Proof.
  intros Hm w s. unfold try. specialize (Hm w s).
  by destruct (m w s) as [[r s1] t1].
Qed.

Lemma preserves_for_each {A} (l : list A) (body : A → M unit) :
  (∀ x, preserves R (body x)) → preserves R (for_each l body).
Proof.
  intros Hb. induction l as [|x l IH]; [apply preserves_ret|].
  cbn [for_each]. apply preserves_bind; [apply Hb|done].
Qed.

Lemma preserves_map_m {A B} (f : A → M B) (l : list A) :
  (∀ x, preserves R (f x)) → preserves R (map_m f l).
Proof.
  intros Hf. induction l as [|x l IH]; [apply preserves_ret|].
  cbn [map_m]. apply preserves_bind; [apply Hf|intros y].
  apply preserves_bind; [apply IH|intros ys]. apply preserves_ret.
Qed.

Lemma preserves_gather {A} (tasks : list (M A)) :
  Forall (preserves R) tasks → preserves R (gather tasks).
Proof.
  induction 1 as [|t ts Ht _ IH]; [apply preserves_ret|].
  cbn [gather]. apply preserves_bind; [by apply preserves_try|intros r].
  apply preserves_bind; [by apply preserves_try|intros rs].
  destruct r, rs; (apply preserves_ret || apply preserves_raise).
Qed.

Lemma preserves_gather_fmap {A B} (f : A → M B) (l : list A) :
  (∀ x, preserves R (f x)) → preserves R (gather (f <$> l)).
Proof.
  intros Hf. apply preserves_gather, Forall_fmap, Forall_forall.
  intros x _. apply Hf.
Qed.
End frame.

Create HintDb frame discriminated.

#[local] Hint Resolve preserves_ret preserves_raise preserves_emit preserves_ask
  preserves_get preserves_try : frame.

(** Walks a computation built from [bind] and [match]. *)
Ltac frame :=
  repeat first
    [ progress intros
    | solve [eauto with frame typeclass_instances]
    | apply preserves_bind; [apply _| |]
    | apply preserves_for_each; [apply _|]
    | apply preserves_map_m; [apply _|]
    | apply preserves_gather_fmap; [apply _|]
    | match goal with
      | |- preserves _ (match ?x with _ => _ end) => destruct x
      | |- preserves _ (if ?x then _ else _) => destruct x
      end ].

(** The methods of [NibeSystem] write objects, allocate them and move
    timers; a relation closed under these three kinds of write is kept by
    all of them. *)
Section frame_store.
Context (R : relation State) `{!PreOrder R}.
Hypothesis R_assign : ∀ s a o, R s (set_heap (<[a := o]> (heap s)) s).
Hypothesis R_timers : ∀ s t n,
  R s {| heap := heap s; next_addr := next_addr s; timers := t;
         next_handle := n; data := data s |}.
Hypothesis R_alloc : ∀ s o,
  R s {| heap := <[next_addr s := o]> (heap s); next_addr := S (next_addr s);
         timers := timers s; next_handle := next_handle s; data := data s |}.

Lemma preserves_deref self : preserves R (deref self).
Proof. unfold deref. frame. Qed.

Lemma preserves_await_fetch {A} (f : World → option A) :
  preserves R (await_fetch f).
Proof. unfold await_fetch. frame. Qed.

Lemma preserves_assign self o : preserves R (assign self o).
Proof. unfold assign. apply preserves_modify. intros s. apply R_assign. Qed.

Lemma preserves_async_track_delta_time sid p :
  preserves R (async_track_delta_time sid p).
Proof. intros w s. apply R_timers. Qed.

Lemma preserves_unsub_call h : preserves R (unsub_call h).
Proof.
  unfold unsub_call. frame. apply preserves_modify. intros s. apply R_timers.
Qed.

Lemma preserves_NibeSystem_init sid : preserves R (NibeSystem_init sid).
Proof. intros w s. apply R_alloc. Qed.

#[local] Hint Resolve preserves_deref preserves_await_fetch preserves_assign
  preserves_async_track_delta_time preserves_unsub_call
  preserves_NibeSystem_init : frame.

Lemma preserves_update_notifications self :
  preserves R (update_notifications self).
Proof. unfold update_notifications. frame. Qed.

Lemma preserves_update_statuses self : preserves R (update_statuses self).
Proof. unfold update_statuses. frame. Qed.

Lemma preserves_unsub_append self h : preserves R (unsub_append self h).
Proof. unfold unsub_append. frame. Qed.

#[local] Hint Resolve preserves_update_notifications preserves_update_statuses
  preserves_unsub_append : frame.

Lemma preserves_load self : preserves R (load self).
Proof. unfold load. frame. Qed.

Lemma preserves_unload self : preserves R (unload self).
Proof. unfold unload. frame. Qed.

#[local] Hint Resolve preserves_load preserves_unload : frame.

Lemma preserves_async_setup_systems_enter cfg :
  preserves R (async_setup_systems_enter cfg).
Proof. unfold async_setup_systems_enter. frame. Qed.

Lemma preserves_async_setup_systems_exit systems exc :
  preserves R (async_setup_systems_exit systems exc).
Proof. unfold async_setup_systems_exit. frame. Qed.

Lemma preserves_async_forward_platforms_exit exc :
  preserves R (async_forward_platforms_exit exc).
Proof.
  unfold async_forward_platforms_exit.
  destruct exc; frame; unfold async_forward_entry_unload; frame.
Qed.

(** The exit stack and the entry points also write [data], but never
    its counter. *)
Hypothesis R_data : ∀ s d,
  skip_reload d = skip_reload (data s) → R s (set_data d s).

Lemma preserves_set_stack cbs : preserves R (set_stack cbs).
Proof. apply preserves_modify. intros s. by apply R_data. Qed.

Lemma preserves_set_handles a b c : preserves R (set_handles a b c).
Proof. apply preserves_modify. intros s. by apply R_data. Qed.

#[local] Hint Resolve preserves_set_stack preserves_set_handles
  preserves_async_setup_systems_enter preserves_async_setup_systems_exit
  preserves_async_forward_platforms_exit : frame.

Lemma preserves_push cb : preserves R (push cb).
Proof. unfold push. frame. Qed.

Lemma preserves_run_callback cb exc : preserves R (run_callback cb exc).
Proof. destruct cb; cbn [run_callback]; frame. Qed.

#[local] Hint Resolve preserves_push preserves_run_callback : frame.

Lemma preserves_exit_loop cbs exc a b : preserves R (exit_loop cbs exc a b).
Proof.
  revert exc a b. induction cbs as [|cb cbs IH]; intros exc a b; cbn [exit_loop].
  - frame.
  - frame; apply IH.
Qed.

#[local] Hint Resolve preserves_exit_loop : frame.

Lemma preserves_aexit exc : preserves R (aexit exc).
Proof. unfold aexit. frame. Qed.

#[local] Hint Resolve preserves_aexit : frame.

Lemma preserves_async_unload_entry : preserves R async_unload_entry.
Proof. unfold async_unload_entry, aclose. frame. Qed.

Lemma preserves_acquire cfg : preserves R (acquire cfg).
Proof.
  unfold acquire, enter_async_context, UplinkSession_aenter, Uplink_aenter,
    async_forward_platforms_enter.
  frame.
Qed.

#[local] Hint Resolve preserves_acquire : frame.

Lemma preserves_async_setup_entry cfg : preserves R (async_setup_entry cfg).
Proof. unfold async_setup_entry. frame. Qed.
End frame_store.

Lemma same_counter_assign s a o : same_counter s (set_heap (<[a := o]> (heap s)) s).
Proof. done. Qed.

Lemma same_counter_timers s t n :
  same_counter s {| heap := heap s; next_addr := next_addr s; timers := t;
                    next_handle := n; data := data s |}.
Proof. done. Qed.

Lemma same_counter_alloc s o :
  same_counter s {| heap := <[next_addr s := o]> (heap s);
                    next_addr := S (next_addr s); timers := timers s;
                    next_handle := next_handle s; data := data s |}.
Proof. done. Qed.

Lemma same_counter_data s d :
  skip_reload d = skip_reload (data s) → same_counter s (set_data d s).
Proof. done. Qed.

Lemma is_Some_lookup_insert (h : gmap nat NibeSystem) a b o :
  is_Some (h !! b) → is_Some (<[a := o]> h !! b).
Proof.
  intros Hb. destruct (decide (a = b)) as [->|Hne].
  - rewrite lookup_insert_eq. eauto.
  - by rewrite lookup_insert_ne.
Qed.

Lemma same_data_assign s a o : same_data s (set_heap (<[a := o]> (heap s)) s).
Proof. split; [done|]. intros b. apply is_Some_lookup_insert. Qed.

Lemma same_data_timers s t n :
  same_data s {| heap := heap s; next_addr := next_addr s; timers := t;
                 next_handle := n; data := data s |}.
Proof. split; [done|]. by intros a Ha. Qed.

Lemma same_data_alloc s o :
  same_data s {| heap := <[next_addr s := o]> (heap s);
                 next_addr := S (next_addr s); timers := timers s;
                 next_handle := next_handle s; data := data s |}.
Proof. split; [done|]. intros b. apply is_Some_lookup_insert. Qed.

(** ** The skip_reload counter *)

(** The two writers of the counter. *)
Lemma async_update_listener_skip_reload w s :
  skip_reload (data (run_state (async_update_listener w s))) =
    if bool_decide (skip_reload (data s) = 0%Z) then 0%Z
    else (skip_reload (data s) - 1)%Z.
Proof.
  unfold async_update_listener, bind, get. cbn.
  case_bool_decide as H; cbn; [by rewrite H|done].
Qed.

Lemma access_data_write_skip_reload w s :
  skip_reload (data (run_state (access_data_write w s))) =
    if update_entry w then (skip_reload (data s) + 1)%Z else skip_reload (data s).
Proof.
  unfold access_data_write, bind, get, ask, emit, set_skip_reload, modify. cbn.
  destruct (update_entry w); cbn; lia.
Qed.

Lemma call_keeps_counter c :
  match c with
  | CallUpdateListener | CallAccessDataWrite => True
  | _ => preserves same_counter (call c)
  end.
Proof.
  destruct c; cbn [call]; try done.
  - apply preserves_bind; [apply _| |intros; apply preserves_ret; apply _].
    apply preserves_async_setup_entry;
      auto using same_counter_assign, same_counter_timers, same_counter_alloc,
        same_counter_data with typeclass_instances.
  - apply preserves_bind; [apply _| |intros; apply preserves_ret; apply _].
    apply preserves_async_unload_entry;
      auto using same_counter_assign, same_counter_timers, same_counter_alloc,
        same_counter_data with typeclass_instances.
  - apply preserves_update_notifications;
      auto using same_counter_assign with typeclass_instances.
  - apply preserves_update_statuses;
      auto using same_counter_assign with typeclass_instances.
Qed.

Lemma call_skip_reload_nonneg c w s :
  (0 ≤ skip_reload (data s))%Z →
  (0 ≤ skip_reload (data (run_state (call c w s))))%Z.
Proof.
  intros Hs. pose proof (call_keeps_counter c) as Hk.
  destruct c; cbn [call] in *; try (by rewrite (Hk w s)).
  - rewrite async_update_listener_skip_reload. case_bool_decide; lia.
  - rewrite access_data_write_skip_reload. destruct (update_entry w); lia.
Qed.

(** C10.  In every reachable state [skip_reload] is at least 0: the
    listener only decrements a counter that is not 0 and reloads
    otherwise, the write callback leaves the counter one higher when the
    entry changed and as it was when it did not, and nothing else writes
    it. *)
Theorem skip_reload_never_negative s :
  reachable s →
  (0 ≤ skip_reload (data s))%Z
  ∧ (∀ w, skip_reload (data (run_state (async_update_listener w s))) =
          if bool_decide (skip_reload (data s) = 0%Z) then 0%Z
          else (skip_reload (data s) - 1)%Z)
  ∧ (∀ w, run_trace (async_update_listener w s) =
          if bool_decide (skip_reload (data s) = 0%Z) then [EvReload] else [])
  ∧ (∀ w, skip_reload (data (run_state (access_data_write w s))) =
          if update_entry w then (skip_reload (data s) + 1)%Z
          else skip_reload (data s)).
Proof.
  intros Hr. split; [|split; [|split]].
  - induction Hr as [|s c w _ IH]; [done|]. by apply call_skip_reload_nonneg.
  - intros w. apply async_update_listener_skip_reload.
  - intros w. unfold async_update_listener, bind, get. cbn.
    by case_bool_decide.
  - intros w. apply access_data_write_skip_reload.
Qed.

Lemma skip_reload_never_negative_witness :
  (0 ≤ skip_reload (data (run_state (call CallUpdateListener quiet
         (run_state (call CallAccessDataWrite unchanged_entry initial_state))))))%Z.
Proof.
  apply (skip_reload_never_negative
           (run_state (call CallUpdateListener quiet
              (run_state (call CallAccessDataWrite unchanged_entry initial_state))))).
  apply reachable_call, reachable_call, reachable_initial.
Defined.

(** ** Controllers: load and unload *)

Lemma filter_all {A} (P : A → Prop) `{!∀ x, Decision (P x)} (l : list A) :
  (∀ x, P x) → filter P l = l.
Proof.
  intros HP. induction l as [|x l IH]; [done|].
  by rewrite filter_cons_True, IH.
Qed.

Lemma for_each_unsub_call (l : list nat) w s :
  for_each l unsub_call w s =
    (Ok tt,
     {| heap := heap s; next_addr := next_addr s;
        timers := filter (λ h, h ∉ l) (timers s);
        next_handle := next_handle s; data := data s |},
     EvUnsub <$> l).
Proof.
  revert s. induction l as [|h l IH]; intros s.
  - cbn. rewrite filter_all by (intros x; apply not_elem_of_nil). by destruct s.
  - cbn [for_each]. unfold bind at 1.
    unfold unsub_call at 1. unfold bind, modify, emit. cbn.
    rewrite IH. cbn. rewrite list_filter_filter.
    assert (filter (λ a, (a ∉ l) ∧ a ≠ h) (timers s) =
            filter (λ a, a ∉ h :: l) (timers s)) as ->; [|done].
    apply list_filter_iff. intros x. rewrite not_elem_of_cons. tauto.
Qed.

(** [unload] calls the cancel functions last-started first and forgets them. *)
Lemma unload_cancels_in_reverse self o w s :
  heap s !! self = Some o →
  unload self w s =
    (Ok tt,
     {| heap := <[self := set_unsub [] o]> (heap s); next_addr := next_addr s;
        timers := filter (λ h, h ∉ rev (_unsub o)) (timers s);
        next_handle := next_handle s; data := data s |},
     EvSystemUnload (system_id o) :: (EvUnsub <$> rev (_unsub o))).
Proof.
  intros Ho. unfold unload, deref, assign. unfold bind, get, emit, modify. cbn.
  rewrite Ho. cbn. rewrite for_each_unsub_call. cbn. by rewrite app_nil_r.
Qed.

(** ** Gathered teardown *)

Lemma gather_forward_entry_unload (l : list string) w s :
  gather (async_forward_entry_unload <$> l) w s =
    (Ok (forward_entry_unload w <$> l), s, EvForwardEntryUnload <$> l).
Proof.
  induction l as [|p l IH]; [done|].
  cbn [fmap list_fmap gather]. unfold bind at 1. unfold try at 1.
  unfold async_forward_entry_unload at 1. unfold bind, emit, ask, ret. cbn.
  fold (list_fmap _ _ async_forward_entry_unload l).
  change (list_fmap _ _ async_forward_entry_unload l)
    with (async_forward_entry_unload <$> l).
  unfold try. rewrite IH. cbn. by rewrite app_nil_r.
Qed.

Lemma valid_refs_cons s a l :
  valid_refs s (a :: l) = true ↔ is_Some (heap s !! a) ∧ valid_refs s l = true.
Proof.
  unfold valid_refs. cbn [forallb]. rewrite andb_true_iff, bool_decide_eq_true.
  done.
Qed.

Lemma valid_refs_mono s s' l :
  more_heap s s' → valid_refs s l = true → valid_refs s' l = true.
Proof.
  intros Hm. induction l as [|a l IH]; [done|].
  rewrite !valid_refs_cons. intros [Ha Hl]. split; [by apply Hm|by apply IH].
Qed.

Lemma system_ids_ext s s' l :
  (∀ b, system_id <$> heap s' !! b = system_id <$> heap s !! b) →
  system_ids s' l = system_ids s l.
Proof.
  intros H. unfold system_ids. induction l as [|a l IH]; [done|].
  cbn. by rewrite H, IH.
Qed.

Lemma gather_cons {A} (t : M A) (ts : list (M A)) w s :
  gather (t :: ts) w s =
    match t w s with
    | (r, s1, t1) =>
        match gather ts w s1 with
        | (rs, s2, t2) =>
            (match r, rs with
             | Ok a, Ok l => Ok (a :: l)
             | Raise e, _ => Raise e
             | Ok _, Raise e => Raise e
             end, s2, t1 ++ t2)
        end
    end.
Proof.
  cbn [gather]. unfold bind, try.
  destruct (t w s) as [[r s1] t1]. cbn.
  destruct (gather ts w s1) as [[rs s2] t2]. cbn.
  destruct r, rs; cbn; by rewrite ?app_nil_r.
Qed.

Lemma unloaded_app t1 t2 : unloaded (t1 ++ t2) = unloaded t1 ++ unloaded t2.
Proof. apply omap_app. Qed.

Lemma unloaded_cons e t :
  unloaded (e :: t) =
    match e with EvSystemUnload sid => sid :: unloaded t | _ => unloaded t end.
Proof. by destruct e. Qed.

Lemma unloaded_unsub (l : list nat) : unloaded (EvUnsub <$> l) = [].
Proof. induction l as [|h l IH]; [done|]. apply IH. Qed.

(** Unloading valid controllers returns; each gets one call, in list
    order; only controller events happen and only objects and timers are
    written. *)
Lemma gather_unload (systems : list nat) w s :
  valid_refs s systems = true →
  ∃ s' t,
    gather (unload <$> systems) w s = (Ok (const tt <$> systems), s', t)
    ∧ data s' = data s
    ∧ more_heap s s'
    ∧ Forall (λ e, controller_event e = true) t
    ∧ unloaded t = system_ids s systems.
Proof.
  revert s. induction systems as [|a l IH]; intros s Hv.
  { exists s, []. by repeat split. }
  apply valid_refs_cons in Hv as [[o Ho] Hl].
  cbn [fmap list_fmap]. rewrite gather_cons.
  rewrite (unload_cancels_in_reverse a o w s Ho).
  set (s1 := {| heap := <[a:=set_unsub [] o]> (heap s) |}).
  assert (Hm1 : more_heap s s1) by (intros b; apply is_Some_lookup_insert).
  destruct (IH s1 (valid_refs_mono s s1 l Hm1 Hl)) as (s' & t & Hg & Hd & Hm & Ht & Hu).
  change (list_fmap _ _ unload l) with (unload <$> l). rewrite Hg.
  exists s', (EvSystemUnload (system_id o) :: (EvUnsub <$> rev (_unsub o)) ++ t).
  split; [done|]. split; [by rewrite Hd|].
  split; [by etrans|]. split.
  - constructor; [done|]. apply Forall_app. split; [|done].
    apply Forall_fmap, Forall_forall. done.
  - rewrite unloaded_cons, unloaded_app, unloaded_unsub, Hu. cbn.
    rewrite Ho. cbn. f_equal. fold (system_ids s l).
    apply system_ids_ext. intros b. subst s1. cbn.
    destruct (decide (a = b)) as [->|Hne].
    + by rewrite lookup_insert_eq, Ho.
    + by rewrite lookup_insert_ne.
Qed.

(** ** The exit stack *)

Lemma exit_loop_cons cb rest exc a b w s :
  exit_loop (cb :: rest) exc a b w s =
    match run_callback cb exc w
            (set_data {| session := session (data s); uplink := uplink (data s);
                         systems := systems (data s); stack := rev rest;
                         skip_reload := skip_reload (data s) |} s) with
    | (r, s1, t1) =>
        match (match r with
               | Ok true => exit_loop rest None true false
               | Ok false => exit_loop rest exc a b
               | Raise e => exit_loop rest (Some e) a true
               end) w s1 with
        | (r2, s2, t2) => (r2, s2, t1 ++ t2)
        end
    end.
Proof.
  cbn [exit_loop]. unfold bind, try, set_stack, modify. cbn.
  destruct (run_callback cb exc w _) as [[r s1] t1]. cbn.
  destruct r as [[|]|e]; cbn;
    by destruct (exit_loop rest _ _ _ w s1) as [[r2 s2] t2].
Qed.

Lemma run_callback_forward_platforms w s :
  run_callback CbForwardPlatforms None w s =
    (if all (forward_entry_unload w <$> FORWARD_PLATFORMS) then Ok false
     else Raise UnloadPlatformsError,
     s, EvForwardEntryUnload <$> FORWARD_PLATFORMS).
Proof.
  cbn [run_callback]. unfold async_forward_platforms_exit, bind.
  rewrite gather_forward_entry_unload.
  destruct (all _); cbn; by rewrite ?app_nil_r.
Qed.

(** With an exception in flight the generator of [async_setup_systems]
    never gets to its [unload] calls. *)
Lemma run_callback_setup_systems_raising systems e w s :
  run_callback (CbSetupSystems systems) (Some e) w s = (Ok false, s, []).
Proof. done. Qed.

Lemma run_callback_setup_systems systems w s :
  valid_refs s systems = true →
  ∃ s' t,
    run_callback (CbSetupSystems systems) None w s = (Ok false, s', t)
    ∧ data s' = data s
    ∧ more_heap s s'
    ∧ Forall (λ e, controller_event e = true) t
    ∧ unloaded t = system_ids s systems.
Proof.
  intros Hv. destruct (gather_unload systems w s Hv) as (s' & t & Hg & H).
  exists s', t. split; [|done].
  cbn [run_callback]. unfold async_setup_systems_exit, bind. rewrite Hg.
  cbn. by rewrite app_nil_r.
Qed.

Lemma run_callback_uplink exc w s :
  run_callback CbUplink exc w s =
    (match uplink_aexit w with Some e => Raise e | None => Ok false end,
     s, [EvUplinkExit]).
Proof.
  cbn [run_callback]. unfold bind, emit, ask. cbn. by destruct (uplink_aexit w).
Qed.

Lemma run_callback_session exc w s :
  run_callback CbSession exc w s =
    (match session_aexit w with Some e => Raise e | None => Ok false end,
     s, [EvSessionExit]).
Proof.
  cbn [run_callback]. unfold bind, emit, ask. cbn. by destruct (session_aexit w).
Qed.

Lemma run_callback_update_listener exc w s :
  run_callback CbUpdateListener exc w s = (Ok false, s, [EvRemoveUpdateListener]).
Proof. done. Qed.

(** The three oldest entries of the chain: the client, the session and the
    listener are released in this order whatever is in flight, and the
    last exception raised is the one left pending. *)
Lemma exit_loop_base exc a b w s :
  ∃ s',
    exit_loop [CbUplink; CbSession; CbUpdateListener] exc a b w s =
      (Ok (match session_aexit w with
           | Some e => Some e
           | None => match uplink_aexit w with Some e => Some e | None => exc end
           end,
           a,
           match session_aexit w, uplink_aexit w with
           | None, None => b
           | _, _ => true
           end),
       s', [EvUplinkExit; EvSessionExit; EvRemoveUpdateListener])
    ∧ stack (data s') = []
    ∧ heap s' = heap s ∧ timers s' = timers s
    ∧ skip_reload (data s') = skip_reload (data s)
    ∧ session (data s') = session (data s)
    ∧ uplink (data s') = uplink (data s)
    ∧ systems (data s') = systems (data s).
Proof.
  eexists.
  rewrite exit_loop_cons, run_callback_uplink.
  destruct (uplink_aexit w) as [eu|];
    rewrite exit_loop_cons, run_callback_session;
    destruct (session_aexit w) as [es|];
    rewrite exit_loop_cons, run_callback_update_listener;
    cbn; (split; [reflexivity|]); done.
Qed.

Lemma aexit_run exc w s :
  aexit exc w s =
    match exit_loop (rev (stack (data s))) exc false false w s with
    | (Ok (exc_details, suppressed_exc, pending_raise), s', t) =>
        (if pending_raise then
           match exc_details with Some e => Raise e | None => Ok false end
         else Ok (bool_decide (is_Some exc) && suppressed_exc), s', t)
    | (Raise e, s', t) => (Raise e, s', t)
    end.
Proof.
  unfold aexit, bind, get. cbn.
  destruct (exit_loop _ exc false false w s) as [[[[[ed su] [|]]|e] s'] t];
    cbn; [destruct ed| |]; cbn; by rewrite ?app_nil_r.
Qed.

Lemma async_unload_entry_run w s :
  async_unload_entry w s =
    match aexit None w
            (set_data {| session := false; uplink := false; systems := [];
                         stack := stack (data s);
                         skip_reload := skip_reload (data s) |} s) with
    | (Ok _, s', t) => (Ok true, s', t)
    | (Raise e, s', t) => (Raise e, s', t)
    end.
Proof.
  unfold async_unload_entry, aclose, set_handles, bind, modify. cbn -[aexit].
  match goal with |- context [aexit None w ?s0] =>
    destruct (aexit None w s0) as [[[b|e] s'] t] end;
    cbn; by rewrite ?app_nil_r.
Qed.

(** Unloading an acquired chain: the platforms are unloaded; the
    controllers are unloaded only if that went well; the client, the
    session and the listener are released; the outcome is
    [release_outcome]. *)
Lemma async_unload_entry_chain systems w s :
  stack (data s) = chain systems →
  valid_refs s systems = true →
  ∃ s' tc,
    async_unload_entry w s =
      (release_outcome w, s',
       (EvForwardEntryUnload <$> FORWARD_PLATFORMS) ++ tc ++
       [EvUplinkExit; EvSessionExit; EvRemoveUpdateListener])
    ∧ data s' = {| session := false; uplink := false; systems := [];
                   stack := []; skip_reload := skip_reload (data s) |}
    ∧ more_heap s s'
    ∧ Forall (λ e, controller_event e = true) tc
    ∧ (all (forward_entry_unload w <$> FORWARD_PLATFORMS) = true →
       unloaded tc = system_ids s systems)
    ∧ (all (forward_entry_unload w <$> FORWARD_PLATFORMS) = false →
       tc = [] ∧ heap s' = heap s ∧ timers s' = timers s).
Proof.
  intros Hs Hv.
  rewrite async_unload_entry_run, aexit_run. unfold release_outcome.
  cbn [data set_data stack]. rewrite Hs. cbn [rev chain app].
  rewrite exit_loop_cons, run_callback_forward_platforms. cbn [rev app].
  destruct (all (forward_entry_unload w <$> FORWARD_PLATFORMS)) eqn:Hall.
  - rewrite exit_loop_cons.
    match goal with
    | |- context [run_callback (CbSetupSystems systems) None w ?s0] =>
        destruct (run_callback_setup_systems systems w s0 Hv)
          as (s1 & tc & -> & Hd1 & Hm1 & Htc & Hu)
    end.
    destruct (exit_loop_base None false false w s1)
      as (s2 & -> & Hst & Hh & Ht & Hk & Hse & Hup & Hsy).
    exists s2, tc. cbn in Hd1.
    split.
    { destruct (session_aexit w), (uplink_aexit w); cbn;
        by rewrite ?app_nil_r, <-?app_assoc. }
    split.
    { destruct s2 as [h2 na2 ti2 nh2 [se2 up2 sy2 st2 sk2]]. cbn in *.
      rewrite Hd1 in *. cbn in *. by subst. }
    split; [by intros a Ha; rewrite Hh; apply Hm1, Ha|].
    split; [done|]. split; [done|]. done.
  - rewrite exit_loop_cons, run_callback_setup_systems_raising.
    match goal with
    | |- context [exit_loop _ (Some UnloadPlatformsError) false true w ?s0] =>
        destruct (exit_loop_base (Some UnloadPlatformsError) false true w s0)
          as (s2 & -> & Hst & Hh & Ht & Hk & Hse & Hup & Hsy)
    end.
    exists s2, []. cbn in *.
    split.
    { destruct (session_aexit w), (uplink_aexit w); cbn;
        by rewrite ?app_nil_r. }
    split.
    { destruct s2 as [h2 na2 ti2 nh2 [se2 up2 sy2 st2 sk2]]. cbn in *.
      by subst. }
    split; [by intros a Ha; rewrite Hh|].
    split; [done|]. split; [done|]. done.
Qed.

Lemma async_unload_entry_empty_stack w s :
  stack (data s) = [] →
  async_unload_entry w s =
    (Ok true,
     set_data {| session := false; uplink := false; systems := [];
                 stack := []; skip_reload := skip_reload (data s) |} s,
     []).
Proof.
  intros Hs. rewrite async_unload_entry_run, aexit_run. cbn [data set_data stack].
  by rewrite Hs.
Qed.

Lemma filter_controller_events (t1 tc t2 : list Event) :
  Forall (λ e, controller_event e = true) tc →
  Forall (λ e, controller_event e = false) t1 →
  Forall (λ e, controller_event e = false) t2 →
  filter (λ e, controller_event e = false) (t1 ++ tc ++ t2) = t1 ++ t2.
Proof.
  intros Hc H1 H2. rewrite !filter_app.
  assert (Hkeep : ∀ t, Forall (λ e, controller_event e = false) t →
                       filter (λ e, controller_event e = false) t = t).
  { induction 1 as [|e t He _ IH]; [done|]. by rewrite filter_cons_True, IH. }
  assert (Hdrop : filter (λ e, controller_event e = false) tc = []).
  { induction Hc as [|e t He _ IH]; [done|].
    rewrite filter_cons_False; [done|]. by rewrite He. }
  by rewrite Hdrop, (Hkeep t1 H1), (Hkeep t2 H2).
Qed.

(** ** Acquisition *)

Lemma bind_ok_inv {A B} (m : M A) (f : A → M B) w s b s' t :
  bind m f w s = (Ok b, s', t) →
  ∃ a s1 t1 t2,
    m w s = (Ok a, s1, t1) ∧ f a w s1 = (Ok b, s', t2) ∧ t = t1 ++ t2.
Proof.
  unfold bind. destruct (m w s) as [[[a|e] s1] t1]; [|done].
  destruct (f a w s1) as [[r s2] t2] eqn:Hf. intros [= -> -> <-].
  by exists a, s1, t1, t2.
Qed.

Lemma map_m_NibeSystem_init cfg w s :
  ∃ systems s',
    map_m NibeSystem_init cfg w s = (Ok systems, s', [])
    ∧ data s' = data s
    ∧ timers s' = timers s
    ∧ more_heap s s'
    ∧ valid_refs s' systems = true.
Proof.
  revert s. induction cfg as [|sid cfg IH]; intros s.
  { exists [], s. by repeat split. }
  cbn [map_m]. unfold bind at 1. unfold NibeSystem_init at 1.
  unfold bind, get, put, ret. cbn -[map_m].
  match goal with |- context [map_m NibeSystem_init cfg w ?s1] =>
    destruct (IH s1) as (systems & s' & -> & Hd & Ht & Hm & Hv);
    exists (next_addr s :: systems), s'
  end.
  cbn in *. split; [done|]. split; [done|]. split; [done|]. split.
  - intros a Ha. apply Hm. cbn. by apply is_Some_lookup_insert.
  - apply valid_refs_cons. split; [|done]. apply Hm. cbn.
    rewrite lookup_insert_eq. eauto.
Qed.

Lemma gather_load_same_data systems : preserves same_data (gather (load <$> systems)).
Proof.
  apply preserves_gather_fmap; [apply _|]. intros a.
  apply preserves_load;
    auto using same_data_assign, same_data_timers, same_data_alloc
      with typeclass_instances.
Qed.

(** The controllers handed over by [async_setup_systems] are objects of
    the store, and setting them up leaves [data] alone. *)
Lemma async_setup_systems_enter_ok cfg w s systems s' t :
  async_setup_systems_enter cfg w s = (Ok systems, s', t) →
  data s' = data s ∧ more_heap s s' ∧ valid_refs s' systems = true.
Proof.
  unfold async_setup_systems_enter. intros H.
  destruct (map_m_NibeSystem_init cfg w s) as (sys & s1 & Hinit & Hd1 & _ & Hm1 & Hv1).
  apply bind_ok_inv in H as (sys' & s1' & ? & ? & H1 & H & ->).
  rewrite Hinit in H1. injection H1 as <- <- <-.
  apply bind_ok_inv in H as (? & s2 & ? & ? & H2 & [= <- <- <-] & ->).
  pose proof (gather_load_same_data sys w s1) as [Hd2 Hm2].
  rewrite H2 in Hd2, Hm2. cbn in Hd2, Hm2.
  split; [congruence|]. split.
  - intros a Ha. by apply Hm2, Hm1.
  - by apply (valid_refs_mono s1).
Qed.

Lemma push_run cb w s :
  push cb w s =
    (Ok tt,
     set_data {| session := session (data s); uplink := uplink (data s);
                 systems := systems (data s); stack := stack (data s) ++ [cb];
                 skip_reload := skip_reload (data s) |} s,
     []).
Proof. done. Qed.

(** A body that ran to its end has pushed the whole chain, in order. *)
Lemma acquire_ok cfg w s systems s' t :
  acquire cfg w s = (Ok systems, s', t) →
  stack (data s') = stack (data s) ++ chain systems
  ∧ valid_refs s' systems = true
  ∧ session_aenter w = None ∧ uplink_aenter w = None.
Proof.
  unfold acquire, enter_async_context. intros H.
  apply bind_ok_inv in H as (? & ? & ? & ? & [= <- <- <-] & H & ->).
  apply bind_ok_inv in H as (? & ? & ? & ? & [= <- <- <-] & H & ->).
  apply bind_ok_inv in H as (? & s1 & ? & ? & H1 & H & ->).
  apply bind_ok_inv in H1 as (? & ? & ? & ? & Hse & H1 & ->).
  apply bind_ok_inv in H1 as (? & ? & ? & ? & [= <- <- <-] & [= <- <- <-] & ->).
  unfold UplinkSession_aenter, bind, ask in Hse. cbn in Hse.
  destruct (session_aenter w) as [?|] eqn:Es; [done|]. injection Hse as <- <- <-.
  apply bind_ok_inv in H as (? & s2 & ? & ? & H1 & H & ->).
  apply bind_ok_inv in H1 as (? & ? & ? & ? & Hup & H1 & ->).
  apply bind_ok_inv in H1 as (? & ? & ? & ? & [= <- <- <-] & [= <- <- <-] & ->).
  unfold Uplink_aenter, bind, ask in Hup. cbn in Hup.
  destruct (uplink_aenter w) as [?|] eqn:Eu; [done|]. injection Hup as <- <- <-.
  apply bind_ok_inv in H as (sys & s3 & ? & ? & H1 & H & ->).
  apply bind_ok_inv in H1 as (? & s4 & ? & ? & Hsys & H1 & ->).
  apply bind_ok_inv in H1 as (? & ? & ? & ? & [= <- <- <-] & [= <- <- <-] & ->).
  apply async_setup_systems_enter_ok in Hsys as (Hd & Hm & Hv).
  apply bind_ok_inv in H as (? & s5 & ? & ? & H1 & [= <- <- <-] & ->).
  apply bind_ok_inv in H1 as (? & s6 & ? & ? & Hp & H1 & ->).
  apply bind_ok_inv in H1 as (? & ? & ? & ? & [= <- <- <-] & [= <- <- <-] & ->).
  unfold async_forward_platforms_enter in Hp. rewrite for_each_emit in Hp.
  injection Hp as <- <-.
  cbn in *. rewrite Hd. cbn. rewrite <-!app_assoc. done.
Qed.

Lemma async_setup_entry_run cfg w s :
  async_setup_entry cfg w s =
    match acquire cfg w s with
    | (Ok systems, s1, t1) =>
        (Ok true,
         set_data {| session := true; uplink := true; systems := systems;
                     stack := stack (data s1);
                     skip_reload := skip_reload (data s1) |} s1,
         t1)
    | (Raise e, s1, t1) =>
        match aexit (Some e) w s1 with
        | (Ok true, s2, t2) => (Raise UnboundLocalError, s2, t1 ++ t2)
        | (Ok false, s2, t2) => (Raise e, s2, t1 ++ t2)
        | (Raise e', s2, t2) => (Raise e', s2, t1 ++ t2)
        end
    end.
Proof.
  unfold async_setup_entry, bind at 1, try.
  destruct (acquire cfg w s) as [[[sys|e] s1] t1]; cbn -[aexit].
  - by rewrite app_nil_r.
  - unfold bind. destruct (aexit (Some e) w s1) as [[[[|]|e'] s2] t2]; cbn;
      by rewrite ?app_nil_r.
Qed.

(** Every successful [async_setup_entry] on an empty stack leaves an
    acquired chain of valid controllers. *)
Lemma async_setup_entry_acquires_chain cfg w s b :
  stack (data s) = [] →
  run_result (async_setup_entry cfg w s) = Ok b →
  ∃ systems,
    stack (data (run_state (async_setup_entry cfg w s))) = chain systems
    ∧ valid_refs (run_state (async_setup_entry cfg w s)) systems = true.
Proof.
  intros Hs. rewrite async_setup_entry_run.
  destruct (acquire cfg w s) as [[[sys|e] s1] t1] eqn:Ha.
  - intros _. apply acquire_ok in Ha as (Hst & Hv & _). exists sys.
    rewrite Hs in Hst. done.
  - destruct (aexit (Some e) w s1) as [[[[|]|e'] s2] t2]; done.
Qed.

(** ** What a computation can emit *)

Section emits.
Context (P : Event → Prop).

Lemma emits_ret {A} (a : A) : emits P (ret a).
Proof. intros w s. constructor. Qed.

Lemma emits_raise {A} e : emits P (@raise A e).
Proof. intros w s. constructor. Qed.

Lemma emits_ask : emits P ask.
Proof. intros w s. constructor. Qed.

Lemma emits_get : emits P get.
Proof. intros w s. constructor. Qed.

Lemma emits_put s' : emits P (put s').
Proof. intros w s. constructor. Qed.

Lemma emits_modify f : emits P (modify f).
Proof. intros w s. constructor. Qed.

Lemma emits_emit e : P e → emits P (emit e).
Proof. intros He w s. by repeat constructor. Qed.

Lemma emits_bind {A B} (m : M A) (f : A → M B) :
  emits P m → (∀ a, emits P (f a)) → emits P (bind m f).
Proof.
  intros Hm Hf w s. unfold bind. specialize (Hm w s).
  destruct (m w s) as [[[a|e] s1] t1]; cbn in *; [|done].
  specialize (Hf a w s1).
  destruct (f a w s1) as [[r s2] t2]; cbn in *. by apply Forall_app.
Qed.

Lemma emits_try {A} (m : M A) : emits P m → emits P (try m).
Proof.
  intros Hm w s. unfold try. specialize (Hm w s).
  by destruct (m w s) as [[r s1] t1].
Qed.

Lemma emits_for_each {A} (l : list A) (body : A → M unit) :
  (∀ x, emits P (body x)) → emits P (for_each l body).
Proof.
  intros Hb. induction l as [|x l IH]; [apply emits_ret|].
  cbn [for_each]. apply emits_bind; [apply Hb|done].
Qed.

Lemma emits_map_m {A B} (f : A → M B) (l : list A) :
  (∀ x, emits P (f x)) → emits P (map_m f l).
Proof.
  intros Hf. induction l as [|x l IH]; [apply emits_ret|].
  cbn [map_m]. apply emits_bind; [apply Hf|intros y].
  apply emits_bind; [apply IH|intros ys]. apply emits_ret.
Qed.

Lemma emits_gather_fmap {A B} (f : A → M B) (l : list A) :
  (∀ x, emits P (f x)) → emits P (gather (f <$> l)).
Proof.
  intros Hf. induction l as [|x l IH]; [apply emits_ret|].
  cbn [fmap list_fmap gather]. apply emits_bind; [apply emits_try, Hf|intros r].
  apply emits_bind; [apply emits_try, IH|intros rs].
  destruct r, rs; (apply emits_ret || apply emits_raise).
Qed.
End emits.

Create HintDb emits discriminated.

#[local] Hint Resolve emits_ret emits_raise emits_ask emits_get emits_put
  emits_modify emits_try : emits.

(** Walks a computation built from [bind] and [match], leaving the events. *)
Ltac emits :=
  repeat first
    [ progress intros
    | solve [eauto with emits]
    | apply emits_emit; done
    | apply emits_bind
    | apply emits_for_each
    | apply emits_map_m
    | apply emits_gather_fmap
    | match goal with
      | |- emits _ (match ?x with _ => _ end) => destruct x
      | |- emits _ (if ?x then _ else _) => destruct x
      end ].

(** Setting up the controllers gives nothing back. *)
Lemma async_setup_systems_enter_releases_nothing cfg :
  emits (λ e, release_event e = false) (async_setup_systems_enter cfg).
Proof.
  unfold async_setup_systems_enter, NibeSystem_init, load, deref, await_fetch,
    assign, update_notifications, update_statuses, async_track_delta_time,
    unsub_append, deref, assign, async_create, async_dismiss.
  emits.
Qed.

(** The polls that run between setup and unload leave the chain as it is. *)
Lemma polls_keep_chain self systems w s :
  stack (data s) = chain systems →
  valid_refs s systems = true →
  (stack (data (run_state (update_notifications self w s))) = chain systems
   ∧ valid_refs (run_state (update_notifications self w s)) systems = true)
  ∧ (stack (data (run_state (update_statuses self w s))) = chain systems
     ∧ valid_refs (run_state (update_statuses self w s)) systems = true).
Proof.
  intros Hs Hv.
  destruct (preserves_update_notifications same_data same_data_assign self w s)
    as [Hd1 Hm1].
  destruct (preserves_update_statuses same_data same_data_assign self w s)
    as [Hd2 Hm2].
  rewrite Hd1, Hd2. repeat split; try done; by eapply valid_refs_mono.
Qed.

(** ** Unwinding a failed acquisition *)

Lemma bind_raise_inv {A B} (m : M A) (f : A → M B) w s e s' t :
  bind m f w s = (Raise e, s', t) →
  m w s = (Raise e, s', t)
  ∨ ∃ a s1 t1 t2,
      m w s = (Ok a, s1, t1) ∧ f a w s1 = (Raise e, s', t2) ∧ t = t1 ++ t2.
Proof.
  unfold bind. destruct (m w s) as [[[a|e0] s1] t1]; [|intros [= -> -> ->]; by left].
  destruct (f a w s1) as [[r s2] t2] eqn:Hf. intros [= -> -> <-].
  right. by exists a, s1, t1, t2.
Qed.

Lemma bind_run {A B} (m : M A) (f : A → M B) w s :
  bind m f w s =
    match m w s with
    | (Ok a, s1, t1) =>
        match f a w s1 with
        | (r, s2, t2) => (r, s2, t1 ++ t2)
        end
    | (Raise e, s1, t1) => (Raise e, s1, t1)
    end.
Proof. done. Qed.

Lemma enter_session_run w s :
  enter_async_context UplinkSession_aenter (λ _, CbSession) w s =
    match session_aenter w with
    | Some e => (Raise e, s, [])
    | None => (Ok tt, pushed CbSession s, [EvSessionEnter])
    end.
Proof.
  unfold enter_async_context, UplinkSession_aenter, bind, ask. cbn.
  by destruct (session_aenter w).
Qed.

Lemma enter_uplink_run w s :
  enter_async_context Uplink_aenter (λ _, CbUplink) w s =
    match uplink_aenter w with
    | Some e => (Raise e, s, [])
    | None => (Ok tt, pushed CbUplink s, [EvUplinkEnter])
    end.
Proof.
  unfold enter_async_context, Uplink_aenter, bind, ask. cbn.
  by destruct (uplink_aenter w).
Qed.

Lemma enter_systems_run cfg w s :
  enter_async_context (async_setup_systems_enter cfg) CbSetupSystems w s =
    match async_setup_systems_enter cfg w s with
    | (Ok sys, s1, t1) => (Ok sys, pushed (CbSetupSystems sys) s1, t1)
    | (Raise e, s1, t1) => (Raise e, s1, t1)
    end.
Proof.
  unfold enter_async_context, bind.
  destruct (async_setup_systems_enter cfg w s) as [[[sys|e] s1] t1]; [|done].
  cbn. by rewrite app_nil_r.
Qed.

Lemma enter_platforms_run w s :
  enter_async_context async_forward_platforms_enter (λ _, CbForwardPlatforms) w s =
    (Ok tt, pushed CbForwardPlatforms s, EvForwardEntrySetup <$> FORWARD_PLATFORMS).
Proof.
  unfold enter_async_context, async_forward_platforms_enter, bind.
  by rewrite for_each_emit.
Qed.

(** The body of the [with] block, step by step. *)
Lemma acquire_run cfg w s :
  acquire cfg w s =
    match session_aenter w with
    | Some e => (Raise e, pushed CbUpdateListener s, [EvAddUpdateListener])
    | None =>
        match uplink_aenter w with
        | Some e =>
            (Raise e, pushed CbSession (pushed CbUpdateListener s),
             [EvAddUpdateListener; EvSessionEnter])
        | None =>
            match async_setup_systems_enter cfg w
                    (pushed CbUplink (pushed CbSession
                       (pushed CbUpdateListener s))) with
            | (Ok sys, s1, t1) =>
                (Ok sys, pushed CbForwardPlatforms (pushed (CbSetupSystems sys) s1),
                 [EvAddUpdateListener; EvSessionEnter; EvUplinkEnter] ++ t1 ++
                 (EvForwardEntrySetup <$> FORWARD_PLATFORMS))
            | (Raise e, s1, t1) =>
                (Raise e, s1,
                 [EvAddUpdateListener; EvSessionEnter; EvUplinkEnter] ++ t1)
            end
        end
    end.
Proof.
  unfold acquire.
  rewrite bind_run. unfold emit at 1. lazy beta iota.
  rewrite bind_run, push_run. lazy beta iota. fold (pushed CbUpdateListener s).
  rewrite bind_run, enter_session_run.
  destruct (session_aenter w); [done|]. lazy beta iota.
  rewrite bind_run, enter_uplink_run.
  destruct (uplink_aenter w); [done|]. lazy beta iota.
  rewrite bind_run, enter_systems_run.
  destruct (async_setup_systems_enter cfg w _) as [[[sys|e] s1] t1]; [|done].
  lazy beta iota. rewrite bind_run, enter_platforms_run. lazy beta iota.
  cbn. by rewrite ?app_nil_r.
Qed.

Lemma acquire_raise cfg w s e s1 t1 :
  acquire cfg w s = (Raise e, s1, t1) →
  stack (data s1) = stack (data s) ++ held w
  ∧ Forall (λ e, release_event e = false) t1.
Proof.
  rewrite acquire_run. unfold held.
  destruct (session_aenter w) as [es|].
  { intros [= <- <- <-]. split; [done|]. by repeat constructor. }
  destruct (uplink_aenter w) as [eu|].
  { intros [= <- <- <-]. cbn. split; [by rewrite <-app_assoc|].
    by repeat constructor. }
  match goal with |- context [async_setup_systems_enter cfg w ?s0] =>
    pose proof (async_setup_systems_enter_releases_nothing cfg w s0) as Hrel;
    pose proof (preserves_async_setup_systems_enter same_data same_data_assign
                  same_data_timers same_data_alloc cfg w s0) as [Hd _];
    destruct (async_setup_systems_enter cfg w s0) as [[[sys|e0] s2] t2]
  end; [done|].
  intros [= <- <- <-]. cbn in *. rewrite Hd. cbn. split; [by rewrite <-!app_assoc|].
  by repeat constructor.
Qed.

Lemma exit_loop_listener exc a b w s :
  ∃ s',
    exit_loop [CbUpdateListener] exc a b w s =
      (Ok (exc, a, b), s', [EvRemoveUpdateListener])
    ∧ stack (data s') = [] ∧ heap s' = heap s ∧ timers s' = timers s.
Proof.
  eexists. rewrite exit_loop_cons, run_callback_update_listener. cbn.
  split; [reflexivity|done].
Qed.

Lemma exit_loop_session exc a b w s :
  ∃ s',
    exit_loop [CbSession; CbUpdateListener] exc a b w s =
      (Ok (match session_aexit w with Some e => Some e | None => exc end, a,
           match session_aexit w with Some _ => true | None => b end),
       s', [EvSessionExit; EvRemoveUpdateListener])
    ∧ stack (data s') = [] ∧ heap s' = heap s ∧ timers s' = timers s.
Proof.
  eexists. rewrite exit_loop_cons, run_callback_session.
  destruct (session_aexit w);
    rewrite exit_loop_cons, run_callback_update_listener; cbn;
    (split; [reflexivity|done]).
Qed.

Lemma aexit_held e w s :
  stack (data s) = held w →
  ∃ r s',
    aexit (Some e) w s = (r, s', unwound w)
    ∧ (r = Ok false ∨ ∃ e', r = Raise e')
    ∧ stack (data s') = [] ∧ heap s' = heap s ∧ timers s' = timers s.
Proof.
  intros Hs. rewrite aexit_run, Hs. unfold held, unwound.
  destruct (session_aenter w) as [?|]; [|destruct (uplink_aenter w) as [?|]];
    cbn [rev app].
  - destruct (exit_loop_listener (Some e) false false w s) as (s' & -> & H).
    eexists _, s'. split; [reflexivity|]. split; [by left|done].
  - destruct (exit_loop_session (Some e) false false w s) as (s' & -> & H).
    eexists _, s'. split; [reflexivity|]. split; [|done].
    destruct (session_aexit w); cbn; eauto.
  - destruct (exit_loop_base (Some e) false false w s) as (s' & -> & H).
    eexists _, s'. split; [reflexivity|]. split; [|naive_solver].
    destruct (session_aexit w), (uplink_aexit w); cbn; eauto.
Qed.

(** A failed [async_setup_entry] gives back the listener, the session and
    the client, as far as they were acquired and newest first, raises, and
    calls no [unload]. *)
Lemma async_setup_entry_failure_unwinds cfg w s :
  stack (data s) = [] →
  (∀ b, run_result (async_setup_entry cfg w s) ≠ Ok b) →
  (∃ e, run_result (async_setup_entry cfg w s) = Raise e)
  ∧ filter (λ e, release_event e = true) (run_trace (async_setup_entry cfg w s)) =
      unwound w
  ∧ unloaded (run_trace (async_setup_entry cfg w s)) = [].
Proof.
  intros Hs Hfail. rewrite async_setup_entry_run in *.
  destruct (acquire cfg w s) as [[[sys|e] s1] t1] eqn:Ha.
  { by destruct (Hfail true). }
  apply acquire_raise in Ha as [Hst Hrel]. rewrite Hs in Hst.
  assert (Hf : filter (λ e, release_event e = true) t1 = []).
  { clear -Hrel. induction Hrel as [|x t Hx _ IH]; [done|].
    rewrite filter_cons_False; [done|]. by rewrite Hx. }
  assert (Hu : unloaded t1 = []).
  { clear -Hrel. induction Hrel as [|x t Hx _ IH]; [done|].
    rewrite unloaded_cons. by destruct x. }
  assert (Hw : filter (λ e, release_event e = true) (unwound w) = unwound w
               ∧ unloaded (unwound w) = []).
  { unfold unwound. by destruct (session_aenter w), (uplink_aenter w). }
  destruct Hw as [Hw1 Hw2].
  destruct (aexit_held e w s1 Hst) as (r & s' & -> & [-> | [e' ->]] & _);
    cbn [run_result run_trace fst snd];
    rewrite filter_app, unloaded_app, Hf, Hu, Hw1, Hw2; eauto.
Qed.

(** ** One controller: tasks are cancelled newest first *)

Lemma load_schedules_two_tasks self o w s s' t :
  heap s !! self = Some o →
  load self w s = (Ok tt, s', t) →
  ∃ o' t0,
    heap s' !! self = Some o'
    ∧ system_id o' = system_id o
    ∧ _unsub o' = _unsub o ++ [next_handle s; S (next_handle s)]
    ∧ t = t0 ++ [EvTrackDeltaTime (next_handle s) (system_id o) PollNotifications;
                 EvTrackDeltaTime (S (next_handle s)) (system_id o) PollStatuses]
    ∧ timers s' = timers s ++ [next_handle s; S (next_handle s)].
Proof.
  intros Ho. unfold load. rewrite bind_run. unfold deref at 1.
  rewrite bind_run. unfold get at 1. lazy beta iota. rewrite Ho.
  unfold ret at 1. lazy beta iota.
  rewrite bind_run. unfold await_fetch at 1. rewrite bind_run.
  unfold ask at 1. lazy beta iota.
  destruct (get_system w (system_id o)) as [r|]; [|done].
  unfold ret at 1. lazy beta iota.
  rewrite bind_run. unfold assign at 1, modify at 1. lazy beta iota.
  rewrite bind_run. unfold emit at 1. lazy beta iota.
  rewrite bind_run.
  destruct (get_notifications w (system_id o)) as [new|] eqn:Hn.
  2:{ erewrite update_notifications_not_fetched;
        [done|apply lookup_insert_eq|done]. }
  erewrite update_notifications_fetched; [|apply lookup_insert_eq|done].
  lazy beta iota. rewrite bind_run.
  destruct (get_status w (system_id o)) as [icons|] eqn:Hst.
  2:{ unfold update_statuses, deref, await_fetch. unfold bind, get, ask. cbn -[String.append str].
      rewrite lookup_insert_eq. cbn -[String.append str]. by rewrite Hst. }
  erewrite update_statuses_fetched; [|apply lookup_insert_eq|done].
  lazy beta iota.
  unfold async_track_delta_time, unsub_append, deref, assign.
  unfold bind, get, put, emit, modify, ret. cbn -[String.append str].
  rewrite !lookup_insert_eq. cbn -[String.append str]. rewrite !lookup_insert_eq. cbn -[String.append str].
  intros [= <- <-]. cbn -[String.append str]. rewrite lookup_insert_eq.
  eexists _,
    (EvGetOrCreateDevice (system_id o) (productName r)
       (system_name r +:+ " - " +:+ str (system_id o))
     :: ((async_create <$> not_in new (notice o)) ++
         (async_dismiss <$> not_in (notice o) new)) ++
        [EvDispatcherSend SIGNAL_PARAMETERS_UPDATED (system_id o)
           (ArgParameters (scan_status_icons icons).1);
         EvDispatcherSend SIGNAL_STATUSES_UPDATED (system_id o)
           (ArgStatuses (scan_status_icons icons).2)]).
  split; [done|]. cbn -[String.append str]. split; [done|]. split.
  { by rewrite <-app_assoc. }
  split; [|by rewrite <-app_assoc].
  by rewrite <-!app_assoc.
Qed.

(** A controller that was just loaded cancels the statuses task, started
    second, before the notifications task, started first. *)
Lemma load_then_unload_cancels_in_reverse self o w w' s s' t :
  heap s !! self = Some o →
  _unsub o = [] →
  load self w s = (Ok tt, s', t) →
  run_trace (unload self w' s') =
    [EvSystemUnload (system_id o); EvUnsub (S (next_handle s));
     EvUnsub (next_handle s)].
Proof.
  intros Ho Hu Hl.
  destruct (load_schedules_two_tasks self o w s s' t Ho Hl)
    as (o' & t0 & Ho' & Hid & Hun & _ & Ht).
  rewrite (unload_cancels_in_reverse self o' w' s' Ho').
  cbn [run_trace snd]. by rewrite Hun, Hu, Hid.
Qed.

(** The session, then the client, cannot be opened: what was acquired
    before is given back newest first, and the error is raised. *)
Example failed_session_and_failed_client :
  async_setup_entry [1%Z] session_down initial_state =
    (Raise SessionError, initial_state,
     [EvAddUpdateListener; EvRemoveUpdateListener])
  ∧ async_setup_entry [1%Z] uplink_down initial_state =
      (Raise UplinkError, initial_state,
       [EvAddUpdateListener; EvSessionEnter; EvSessionExit;
        EvRemoveUpdateListener]).
Proof. split; vm_compute; reflexivity. Qed.

(** ** The resource chain: what release guarantees *)

(** C3, as the code has it.  Unloading an acquired chain does not shield
    the caller from release errors: [async_unload_entry] answers with the
    last exception raised while unwinding (the platforms' "unable to
    unload", the client's or the session's exit) and returns [True] only
    when nothing raised.  Such an error does not stop the release of what
    was acquired earlier: every platform gets its unload request, then the
    client, the session and the update listener are released, in this
    order, and the stack is left empty. *)
Theorem async_unload_entry_propagates_release_errors systems w s :
  stack (data s) = chain systems →
  valid_refs s systems = true →
  let r := async_unload_entry w s in
  run_result r = release_outcome w
  ∧ (run_result r = Ok true ↔
       all (forward_entry_unload w <$> FORWARD_PLATFORMS) = true
       ∧ uplink_aexit w = None ∧ session_aexit w = None)
  ∧ stack (data (run_state r)) = []
  ∧ filter (λ e, controller_event e = false) (run_trace r) =
      (EvForwardEntryUnload <$> FORWARD_PLATFORMS) ++
      [EvUplinkExit; EvSessionExit; EvRemoveUpdateListener].
Proof.
  intros Hs Hv r. subst r.
  destruct (async_unload_entry_chain systems w s Hs Hv)
    as (s' & tc & -> & Hd & _ & Htc & _ & _).
  cbn [run_result run_state run_trace fst snd].
  split; [done|]. split; [|split].
  - unfold release_outcome.
    destruct (session_aexit w), (uplink_aexit w),
      (all (forward_entry_unload w <$> FORWARD_PLATFORMS)); naive_solver.
  - by rewrite Hd.
  - apply filter_controller_events; [done| |by repeat constructor].
    apply Forall_fmap, Forall_forall. done.
Qed.

Lemma async_unload_entry_propagates_release_errors_witness :
  run_result (async_unload_entry fan_stuck one_system_up) =
    Raise UnloadPlatformsError
  ∧ filter (λ e, controller_event e = false)
      (run_trace (async_unload_entry fan_stuck one_system_up)) =
      (EvForwardEntryUnload <$> FORWARD_PLATFORMS) ++
      [EvUplinkExit; EvSessionExit; EvRemoveUpdateListener].
Proof.
  destruct (async_unload_entry_propagates_release_errors [0%nat] fan_stuck
              one_system_up eq_refl eq_refl) as (Hr & _ & _ & Ht).
  split; [exact Hr|exact Ht].
Defined.

(** C3 as stated fails: the host cannot unload the fan platform, and
    [async_unload_entry] raises instead of returning success. *)
Lemma unload_entry_raises_when_a_platform_is_stuck :
  run_result (async_unload_entry fan_stuck one_system_up) =
    Raise UnloadPlatformsError.
Proof. vm_compute. reflexivity. Qed.

(** C5, as the code has it.  The second of two unloads of an acquired
    chain finds the stack empty: it requests nothing, changes nothing and
    returns [True].  The first one releases each platform, the client, the
    session and the listener once, and each controller once when the
    platforms unloaded; it returns [True] when nothing raised, and the
    release error otherwise. *)
Theorem second_unload_is_a_no_op systems w1 w2 s :
  stack (data s) = chain systems →
  valid_refs s systems = true →
  let first := async_unload_entry w1 s in
  let second := async_unload_entry w2 (run_state first) in
  second = (Ok true, run_state first, [])
  ∧ run_result first = release_outcome w1
  ∧ filter (λ e, controller_event e = false) (run_trace first) =
      (EvForwardEntryUnload <$> FORWARD_PLATFORMS) ++
      [EvUplinkExit; EvSessionExit; EvRemoveUpdateListener]
  ∧ (all (forward_entry_unload w1 <$> FORWARD_PLATFORMS) = true →
     unloaded (run_trace first) = system_ids s systems)
  ∧ (all (forward_entry_unload w1 <$> FORWARD_PLATFORMS) = true →
     uplink_aexit w1 = None → session_aexit w1 = None →
     run_result first = Ok true).
Proof.
  intros Hs Hv first second. subst first second.
  destruct (async_unload_entry_chain systems w1 s Hs Hv)
    as (s' & tc & -> & Hd & _ & Htc & Hu & _).
  cbn [run_result run_state run_trace fst snd].
  split; [|split; [done|split; [|split]]].
  - rewrite async_unload_entry_empty_stack by (by rewrite Hd).
    rewrite Hd. cbn. destruct s' as [h na ti nh d]. cbn in *. by subst.
  - apply filter_controller_events; [done| |by repeat constructor].
    apply Forall_fmap, Forall_forall. done.
  - intros Hall. rewrite !unloaded_app, (Hu Hall).
    assert (unloaded (EvForwardEntryUnload <$> FORWARD_PLATFORMS) = []) as -> by done.
    cbn. by rewrite app_nil_r.
  - intros Hall Hup Hse. unfold release_outcome. by rewrite Hse, Hup, Hall.
Qed.

Lemma second_unload_is_a_no_op_witness :
  async_unload_entry quiet (run_state (async_unload_entry quiet three_systems_up)) =
    (Ok true, run_state (async_unload_entry quiet three_systems_up), [])
  ∧ unloaded (run_trace (async_unload_entry quiet three_systems_up)) =
      [1%Z; 2%Z; 3%Z].
Proof.
  destruct (second_unload_is_a_no_op [0%nat; 1%nat; 2%nat] quiet quiet
              three_systems_up eq_refl eq_refl) as (H2 & _ & _ & Hu & _).
  split; [exact H2|]. exact (Hu eq_refl).
Defined.

(** C5 as stated fails: when the fan platform cannot be unloaded the first
    of the two calls raises; only the second one reports success. *)
Lemma first_unload_raises_second_returns :
  run_result (async_unload_entry fan_stuck three_systems_up) =
    Raise UnloadPlatformsError
  ∧ run_result (async_unload_entry fan_stuck
                  (run_state (async_unload_entry fan_stuck three_systems_up))) =
      Ok true.
Proof. split; vm_compute; reflexivity. Qed.

(** C2 at the failing input: three systems, the second of which cannot
    be fetched.  Setup raises the fetch error after releasing the client,
    the session and the listener; no controller gets an [unload] call and
    the four periodic tasks of systems 1 and 3 stay scheduled. *)
Lemma partial_load_failure_leaves_controllers_loaded :
  run_result (async_setup_entry [1%Z; 2%Z; 3%Z] system_2_down initial_state) =
    Raise RemoteFetchError
  ∧ unloaded (run_trace (async_setup_entry [1%Z; 2%Z; 3%Z] system_2_down
                           initial_state)) = []
  ∧ filter (λ e, release_event e = true)
      (run_trace (async_setup_entry [1%Z; 2%Z; 3%Z] system_2_down initial_state)) =
      [EvUplinkExit; EvSessionExit; EvRemoveUpdateListener]
  ∧ timers (run_state (async_setup_entry [1%Z; 2%Z; 3%Z] system_2_down
                         initial_state)) = [0; 1; 2; 3]%nat
  ∧ stack (data (run_state (async_setup_entry [1%Z; 2%Z; 3%Z] system_2_down
                              initial_state))) = [].
Proof. repeat split; vm_compute; reflexivity. Qed.

(** C4 at the failing input.  One system is set up: listener, session,
    client, the controller's two tasks, the platforms.  Where the host
    unloads every platform the whole chain is given back newest first;
    where it cannot unload the fan platform the controller is never
    unloaded: its two tasks stay scheduled although the client, the
    session and the listener, acquired before it, are released. *)
Lemma stuck_platform_skips_controller_unload :
  filter (λ e, acquire_event e = true)
    (run_trace (async_setup_entry [1%Z] quiet initial_state)) =
    [EvAddUpdateListener; EvSessionEnter; EvUplinkEnter;
     EvTrackDeltaTime 0 1 PollNotifications; EvTrackDeltaTime 1 1 PollStatuses] ++
    (EvForwardEntrySetup <$> FORWARD_PLATFORMS)
  ∧ filter (λ e, release_event e = true)
      (run_trace (async_unload_entry quiet one_system_up)) =
      (EvForwardEntryUnload <$> FORWARD_PLATFORMS) ++
      [EvSystemUnload 1; EvUnsub 1; EvUnsub 0;
       EvUplinkExit; EvSessionExit; EvRemoveUpdateListener]
  ∧ timers (run_state (async_unload_entry quiet one_system_up)) = []
  ∧ filter (λ e, release_event e = true)
      (run_trace (async_unload_entry fan_stuck one_system_up)) =
      (EvForwardEntryUnload <$> FORWARD_PLATFORMS) ++
      [EvUplinkExit; EvSessionExit; EvRemoveUpdateListener]
  ∧ timers (run_state (async_unload_entry fan_stuck one_system_up)) = [0; 1]%nat
  ∧ stack (data (run_state (async_unload_entry fan_stuck one_system_up))) = [].
Proof. repeat split; vm_compute; reflexivity. Qed.

(** * Further properties of the code *)

(** ** Polls *)

Lemma not_in_same (xs ys : list Notification) :
  (∀ x, x ∈ xs → x ∈ ys) → not_in xs ys = [].
Proof.
  intros H. unfold not_in. induction xs as [|x xs IH]; [done|].
  rewrite filter_cons_False.
  - apply IH. intros y Hy. apply H. by right.
  - intros Hx. apply Hx, H. by left.
Qed.

Lemma not_in_nil_r (xs : list Notification) : not_in xs [] = xs.
Proof. apply filter_all. intros x. apply not_elem_of_nil. Qed.

Lemma set_notice_same o : set_notice (notice o) o = o.
Proof. by destruct o. Qed.

Lemma set_heap_same s : set_heap (heap s) s = s.
Proof. by destruct s. Qed.

(** X1.  A notification poll that fetches the records it has cached, in
    whatever order or multiplicity, requests nothing of the host; when
    the fetched snapshot is the cached one the poll leaves the whole state
    as it was. *)
Theorem update_notifications_same_records w s self o new :
  heap s !! self = Some o →
  get_notifications w (system_id o) = Some new →
  (∀ x, x ∈ new ↔ x ∈ notice o) →
  run_trace (update_notifications self w s) = []
  ∧ run_result (update_notifications self w s) = Ok tt
  ∧ (new = notice o → run_state (update_notifications self w s) = s).
Proof.
  intros Ho Hf Hsame.
  rewrite (update_notifications_fetched w s self o new Ho Hf).
  cbn [run_trace run_result run_state fst snd].
  rewrite !not_in_same by (intros x; apply Hsame). split; [done|].
  split; [done|]. intros ->.
  by rewrite set_notice_same, insert_id, set_heap_same.
Qed.

Lemma update_notifications_same_records_witness :
  run_trace (update_notifications 0 (world (Some [note 2 "b" ""; note 1 "a" ""]) None)
               (state_of (controller 7 [note 1 "a" ""; note 2 "b" ""]))) = [].
Proof.
  apply (update_notifications_same_records
           (world (Some [note 2 "b" ""; note 1 "a" ""]) None)
           (state_of (controller 7 [note 1 "a" ""; note 2 "b" ""])) 0
           (controller 7 [note 1 "a" ""; note 2 "b" ""])
           [note 2 "b" ""; note 1 "a" ""]); [reflexivity|reflexivity|].
  intros x. cbn. rewrite !elem_of_cons, !elem_of_nil. tauto.
Defined.

(** X2.  Two notification polls in a row: what the second one requests is
    the difference between the two fetched snapshots, whatever the
    controller had cached before the first, and the cache ends as the
    second snapshot. *)
Theorem update_notifications_twice w1 w2 s self o new1 new2 :
  heap s !! self = Some o →
  get_notifications w1 (system_id o) = Some new1 →
  get_notifications w2 (system_id o) = Some new2 →
  let second := update_notifications self w2
                  (run_state (update_notifications self w1 s)) in
  run_trace second =
    (async_create <$> not_in new2 new1) ++ (async_dismiss <$> not_in new1 new2)
  ∧ (notice <$> heap (run_state second) !! self) = Some new2.
Proof.
  intros Ho H1 H2 second. subst second.
  rewrite (update_notifications_fetched w1 s self o new1 Ho H1).
  cbn [run_state fst snd].
  rewrite (update_notifications_fetched w2 _ self (set_notice new1 o) new2);
    [|apply lookup_insert_eq|done].
  cbn. by rewrite lookup_insert_eq.
Qed.

Lemma update_notifications_twice_witness :
  run_trace (update_notifications 0 (world (Some [note 2 "" ""; note 3 "" ""]) None)
    (run_state (update_notifications 0 (world (Some [note 1 "" ""; note 2 "" ""]) None)
                  (state_of (controller 7 [note 9 "" ""]))))) =
    [EvNotificationCreate "" "" "nibe:3"; EvNotificationDismiss "nibe:1"].
Proof.
  apply (update_notifications_twice
           (world (Some [note 1 "" ""; note 2 "" ""]) None)
           (world (Some [note 2 "" ""; note 3 "" ""]) None)
           (state_of (controller 7 [note 9 "" ""])) 0 (controller 7 [note 9 "" ""])
           [note 1 "" ""; note 2 "" ""] [note 2 "" ""; note 3 "" ""]);
    reflexivity.
Defined.

(** X3.  The first poll of a controller that has nothing cached creates
    one notice for every fetched record, in fetched order, and dismisses
    none; a poll that fetches an empty snapshot dismisses one notice for
    every cached record, in cached order, and creates none. *)
Theorem update_notifications_first_and_cleared w s self o new :
  heap s !! self = Some o →
  get_notifications w (system_id o) = Some new →
  (notice o = [] →
   run_trace (update_notifications self w s) = async_create <$> new)
  ∧ (new = [] →
     run_trace (update_notifications self w s) = async_dismiss <$> notice o).
Proof.
  intros Ho Hf.
  rewrite (update_notifications_fetched w s self o new Ho Hf).
  cbn [run_trace snd]. split.
  - intros ->. rewrite not_in_nil_r. cbn. by rewrite app_nil_r.
  - intros ->. by rewrite not_in_nil_r.
Qed.

Lemma update_notifications_first_and_cleared_witness :
  run_trace (update_notifications 0 (world (Some drift_new) None)
               (state_of (controller 7 []))) = async_create <$> drift_new.
Proof.
  apply (update_notifications_first_and_cleared (world (Some drift_new) None)
           (state_of (controller 7 [])) 0 (controller 7 []) drift_new);
    reflexivity.
Defined.

Lemma update_statuses_fetch_failure_run w s self o :
  heap s !! self = Some o →
  get_status w (system_id o) = None →
  update_statuses self w s = (Raise RemoteFetchError, s, []).
Proof.
  intros Ho Hf. unfold update_statuses, deref, await_fetch.
  unfold bind, get, ask. cbn. rewrite Ho. cbn. by rewrite Hf.
Qed.

(** X4.  When the fetch of the status poll fails, the poll raises the
    fetch error, publishes nothing and leaves the whole state, so the
    cached status set, as it was. *)
Theorem update_statuses_fetch_failure w s self o :
  heap s !! self = Some o →
  get_status w (system_id o) = None →
  update_statuses self w s = (Raise RemoteFetchError, s, []).
Proof. apply update_statuses_fetch_failure_run. Qed.

Lemma update_statuses_fetch_failure_witness :
  update_statuses 0 status_down (state_of (controller 7 [])) =
    (Raise RemoteFetchError, state_of (controller 7 []), []).
Proof.
  apply (update_statuses_fetch_failure status_down (state_of (controller 7 []))
           0 (controller 7 [])); reflexivity.
Defined.

Lemma filter_absent {A B} `{EqDecision B} (f : A → B) (l : list A) (b : B) :
  b ∉ f <$> l → filter (λ q, f q = b) l = [].
Proof.
  induction l as [|x l IH]; [done|]. rewrite fmap_cons, not_elem_of_cons.
  intros [Hx Hl]. rewrite filter_cons_False by done. by apply IH.
Qed.

Lemma filter_unique {A B} `{EqDecision B} (f : A → B) (l : list A) (p : A) :
  NoDup (f <$> l) → p ∈ l → filter (λ q, f q = f p) l = [p].
Proof.
  induction l as [|x l IH]; intros Hnd Hp; [by apply elem_of_nil in Hp|].
  cbn in Hnd. apply NoDup_cons in Hnd as [Hx Hnd].
  apply elem_of_cons in Hp as [->|Hp].
  - rewrite filter_cons_True by done. by rewrite filter_absent.
  - rewrite filter_cons_False; [by apply IH|].
    intros Hxp. apply Hx. rewrite Hxp. by apply list_elem_of_fmap_2.
Qed.

(** X5.  The parameter mapping published by a status poll knows exactly
    the ids carried by the fetched parameters, and when no id is carried
    twice every fetched parameter is found under its id: the flattening
    loses a parameter only to a later one with the same id. *)
Theorem update_statuses_keeps_distinct_parameters w s self o status_icons :
  heap s !! self = Some o →
  get_status w (system_id o) = Some status_icons →
  ∃ (ps : gmap Z Param) (sts : gset string),
    run_trace (update_statuses self w s) =
      [EvDispatcherSend SIGNAL_PARAMETERS_UPDATED (system_id o) (ArgParameters ps);
       EvDispatcherSend SIGNAL_STATUSES_UPDATED (system_id o) (ArgStatuses sts)]
    ∧ dom ps = list_to_set (parameterId <$> concat (parameters <$> status_icons))
    ∧ (NoDup (parameterId <$> concat (parameters <$> status_icons)) →
       ∀ icon p, icon ∈ status_icons → p ∈ parameters icon →
                 ps !! parameterId p = Some p).
Proof.
  intros Ho Hf.
  exists (scan_status_icons status_icons).1, (scan_status_icons status_icons).2.
  rewrite (update_statuses_fetched w s self o status_icons Ho Hf).
  split; [done|]. split.
  - apply set_eq. intros pid.
    rewrite elem_of_dom, scan_status_icons_parameters, elem_of_list_to_set,
      list_elem_of_fmap.
    split.
    + intros [p Hp]. apply last_Some in Hp as [l' Hl'].
      assert (Hin : p ∈ filter (λ q, parameterId q = pid)
                        (concat (parameters <$> status_icons))).
      { rewrite Hl'. set_solver. }
      apply list_elem_of_filter in Hin as [? ?]. eauto.
    + intros (p & -> & Hp).
      destruct (last (filter _ _)) as [q|] eqn:Hl; [eauto|].
      apply last_None in Hl.
      assert (Hin : p ∈ filter (λ q, parameterId q = parameterId p)
                        (concat (parameters <$> status_icons))).
      { by apply list_elem_of_filter. }
      rewrite Hl in Hin. by apply elem_of_nil in Hin.
  - intros Hnd icon p Hicon Hp.
    rewrite scan_status_icons_parameters, (filter_unique parameterId); [done|done|].
    apply list_elem_of_In, in_concat. exists (parameters icon).
    split; [|by apply list_elem_of_In].
    apply list_elem_of_In, list_elem_of_fmap. eauto.
Qed.

Lemma update_statuses_keeps_distinct_parameters_witness :
  ∃ (ps : gmap Z Param) (sts : gset string),
    run_trace (update_statuses 0 (world None (Some icons_example))
                 (state_of (controller 7 []))) =
      [EvDispatcherSend SIGNAL_PARAMETERS_UPDATED 7 (ArgParameters ps);
       EvDispatcherSend SIGNAL_STATUSES_UPDATED 7 (ArgStatuses sts)]
    ∧ dom ps = {[ 43084%Z; 40004%Z ]}.
Proof.
  destruct (update_statuses_keeps_distinct_parameters
              (world None (Some icons_example)) (state_of (controller 7 []))
              0 (controller 7 []) icons_example eq_refl eq_refl)
    as (ps & sts & Ht & Hd & _).
  exists ps, sts. split; [exact Ht|]. rewrite Hd. cbn. set_solver.
Defined.

(** ** Controllers *)

(** [load], case by case on what the uplink answers. *)
Lemma load_run self o w s :
  heap s !! self = Some o →
  load self w s =
    match get_system w (system_id o) with
    | None => (Raise RemoteFetchError, s, [])
    | Some r =>
        match get_notifications w (system_id o) with
        | None =>
            (Raise RemoteFetchError,
             set_heap (<[self := set_system r o]> (heap s)) s,
             [device_event o r])
        | Some new =>
            match get_status w (system_id o) with
            | None =>
                (Raise RemoteFetchError,
                 set_heap (<[self := set_notice new (set_system r o)]> (heap s)) s,
                 device_event o r :: first_notifications o new)
            | Some status_icons =>
                (Ok tt,
                 {| heap := <[self := loaded o r new status_icons (next_handle s)]>
                              (heap s);
                    next_addr := next_addr s;
                    timers := timers s ++ [next_handle s; S (next_handle s)];
                    next_handle := S (S (next_handle s));
                    data := data s |},
                 device_event o r :: first_notifications o new ++
                 first_statuses o status_icons ++
                 [EvTrackDeltaTime (next_handle s) (system_id o) PollNotifications;
                  EvTrackDeltaTime (S (next_handle s)) (system_id o) PollStatuses])
            end
        end
    end.
Proof.
  intros Ho. unfold load. rewrite bind_run. unfold deref at 1.
  rewrite bind_run. unfold get at 1. lazy beta iota. rewrite Ho.
  unfold ret at 1. lazy beta iota.
  rewrite bind_run. unfold await_fetch at 1. rewrite bind_run.
  unfold ask at 1. lazy beta iota.
  destruct (get_system w (system_id o)) as [r|]; [|done].
  unfold ret at 1. lazy beta iota.
  rewrite bind_run. unfold assign at 1, modify at 1. lazy beta iota.
  rewrite bind_run. unfold emit at 1. lazy beta iota.
  rewrite bind_run.
  destruct (get_notifications w (system_id o)) as [new|] eqn:Hn.
  2:{ erewrite update_notifications_not_fetched;
        [done|apply lookup_insert_eq|done]. }
  erewrite update_notifications_fetched; [|apply lookup_insert_eq|done].
  lazy beta iota. rewrite bind_run.
  destruct (get_status w (system_id o)) as [icons|] eqn:Hst.
  2:{ erewrite update_statuses_fetch_failure_run;
        [|apply lookup_insert_eq|done].
      cbn -[String.append str]. by rewrite insert_insert_eq, app_nil_r. }
  erewrite update_statuses_fetched; [|apply lookup_insert_eq|done].
  lazy beta iota.
  unfold async_track_delta_time, unsub_append, deref, assign.
  unfold bind, get, put, emit, modify, ret. cbn -[String.append str].
  rewrite !lookup_insert_eq. cbn -[String.append str].
  rewrite !lookup_insert_eq. cbn -[String.append str].
  rewrite !insert_insert_eq. unfold set_heap, loaded, first_notifications,
    first_statuses, device_event. cbn -[String.append str].
  by rewrite <-!app_assoc.
Qed.

(** X6.  A [load] for which the uplink answers all three fetches returns.
    It registers the device, runs the notification poll and then the
    status poll, and only then schedules its two periodic tasks, the
    notification task first, under two fresh consecutive handles that it
    appends to [_unsub]; no other controller is touched and [data] is as
    it was. *)
Theorem load_polls_then_schedules self o w s r new status_icons :
  heap s !! self = Some o →
  get_system w (system_id o) = Some r →
  get_notifications w (system_id o) = Some new →
  get_status w (system_id o) = Some status_icons →
  let res := load self w s in
  run_result res = Ok tt
  ∧ run_trace res =
      device_event o r :: first_notifications o new ++
      first_statuses o status_icons ++
      [EvTrackDeltaTime (next_handle s) (system_id o) PollNotifications;
       EvTrackDeltaTime (S (next_handle s)) (system_id o) PollStatuses]
  ∧ heap (run_state res) !! self =
      Some (loaded o r new status_icons (next_handle s))
  ∧ (∀ a, a ≠ self → heap (run_state res) !! a = heap s !! a)
  ∧ timers (run_state res) = timers s ++ [next_handle s; S (next_handle s)]
  ∧ next_handle (run_state res) = S (S (next_handle s))
  ∧ data (run_state res) = data s.
Proof.
  intros Ho Hs Hn Hst res. subst res.
  rewrite (load_run self o w s Ho), Hs, Hn, Hst.
  cbn [run_result run_trace run_state fst snd heap timers next_handle data].
  split; [done|]. split; [done|]. split; [apply lookup_insert_eq|].
  split; [|done]. intros a Ha. by rewrite lookup_insert_ne.
Qed.

Lemma load_polls_then_schedules_witness :
  run_trace (load 0 (world (Some drift_new) (Some [])) (state_of (controller 7 []))) =
    [EvGetOrCreateDevice 7 "F1155" "home - 7";
     EvNotificationCreate "low pressure, acknowledged" "alarm" "nibe:1";
     EvDispatcherSend SIGNAL_PARAMETERS_UPDATED 7 (ArgParameters ∅);
     EvDispatcherSend SIGNAL_STATUSES_UPDATED 7 (ArgStatuses ∅);
     EvTrackDeltaTime 0 7 PollNotifications; EvTrackDeltaTime 1 7 PollStatuses].
Proof.
  apply (load_polls_then_schedules 0 (controller 7 [])
           (world (Some drift_new) (Some [])) (state_of (controller 7 []))
           heat_pump drift_new []); reflexivity.
Defined.

(** X7.  A [load] for which some fetch fails raises the fetch error and
    schedules nothing: the timers, the next handle and the controller's
    [_unsub] are as before, no other controller is touched, and when it
    is the system description that cannot be fetched nothing at all has
    happened. *)
Theorem load_failure_schedules_nothing self o w s :
  heap s !! self = Some o →
  answers w (system_id o) = false →
  let res := load self w s in
  run_result res = Raise RemoteFetchError
  ∧ timers (run_state res) = timers s
  ∧ next_handle (run_state res) = next_handle s
  ∧ data (run_state res) = data s
  ∧ (_unsub <$> heap (run_state res) !! self) = Some (_unsub o)
  ∧ (∀ a, a ≠ self → heap (run_state res) !! a = heap s !! a)
  ∧ Forall (λ e, acquire_event e = false) (run_trace res)
  ∧ (get_system w (system_id o) = None → res = (Raise RemoteFetchError, s, [])).
Proof.
  intros Ho Ha res. subst res. rewrite (load_run self o w s Ho).
  unfold answers in Ha.
  destruct (get_system w (system_id o)) as [r|].
  2:{ cbn. rewrite Ho. repeat split; by try constructor. }
  destruct (get_notifications w (system_id o)) as [new|].
  2:{ cbn -[device_event]. rewrite lookup_insert_eq.
      repeat split; try done.
      - intros a Hne. by rewrite lookup_insert_ne.
      - by repeat constructor. }
  destruct (get_status w (system_id o)) as [icons|].
  { exfalso. rewrite !bool_decide_eq_true_2 in Ha by eauto. done. }
  cbn -[device_event first_notifications]. rewrite lookup_insert_eq.
  repeat split; try done.
  - intros a Hne. by rewrite lookup_insert_ne.
  - constructor; [done|]. unfold first_notifications.
    apply Forall_app. split; apply Forall_fmap, Forall_forall; done.
Qed.

Lemma load_failure_schedules_nothing_witness :
  run_result (load 0 status_down (state_of (controller 7 []))) =
    Raise RemoteFetchError
  ∧ timers (run_state (load 0 status_down (state_of (controller 7 [])))) = [].
Proof.
  destruct (load_failure_schedules_nothing 0 (controller 7 []) status_down
              (state_of (controller 7 [])) eq_refl eq_refl)
    as (Hr & Ht & _).
  split; [exact Hr|exact Ht].
Defined.

Lemma elem_of_rev_iff {A} (l : list A) (x : A) : x ∈ rev l ↔ x ∈ l.
Proof. rewrite !list_elem_of_In. symmetry. apply in_rev. Qed.

Lemma filter_Forall {A} (P : A → Prop) `{!∀ x, Decision (P x)} (l : list A) :
  Forall P l → filter P l = l.
Proof.
  induction 1 as [|x l Hx _ IH]; [done|]. by rewrite filter_cons_True, IH.
Qed.

Lemma filter_none {A} (P : A → Prop) `{!∀ x, Decision (P x)} (l : list A) :
  Forall (λ x, ¬ P x) l → filter P l = [].
Proof.
  induction 1 as [|x l Hx _ IH]; [done|]. by rewrite filter_cons_False.
Qed.

(** X8.  [unload] cancels the controller's tasks newest first, forgets
    them, takes exactly their handles off the scheduler and leaves every
    other timer; a second [unload] finds nothing to cancel and changes
    nothing. *)
Theorem unload_twice self o w1 w2 s :
  heap s !! self = Some o →
  let first := unload self w1 s in
  let second := unload self w2 (run_state first) in
  run_result first = Ok tt
  ∧ run_trace first = EvSystemUnload (system_id o) :: (EvUnsub <$> rev (_unsub o))
  ∧ timers (run_state first) = filter (λ h, h ∉ _unsub o) (timers s)
  ∧ (_unsub <$> heap (run_state first) !! self) = Some []
  ∧ second = (Ok tt, run_state first, [EvSystemUnload (system_id o)]).
Proof.
  intros Ho first second. subst first second.
  rewrite (unload_cancels_in_reverse self o w1 s Ho).
  cbn [run_result run_trace run_state fst snd].
  split; [done|]. split; [done|]. split.
  { cbn. apply list_filter_iff. intros h. by rewrite elem_of_rev_iff. }
  split; [cbn; by rewrite lookup_insert_eq|].
  rewrite (unload_cancels_in_reverse self (set_unsub [] o) w2);
    [|cbn; apply lookup_insert_eq].
  cbn. rewrite insert_insert_eq.
  rewrite filter_all by (intros h; apply not_elem_of_nil). done.
Qed.

Lemma unload_twice_witness :
  run_trace (unload 0 quiet loaded_state) =
    [EvSystemUnload 7; EvUnsub 4; EvUnsub 3]
  ∧ timers (run_state (unload 0 quiet loaded_state)) = [1%nat]
  ∧ unload 0 quiet (run_state (unload 0 quiet loaded_state)) =
      (Ok tt, run_state (unload 0 quiet loaded_state), [EvSystemUnload 7]).
Proof.
  destruct (unload_twice 0 loaded_controller quiet quiet loaded_state eq_refl)
    as (_ & Ht & Hti & _ & H2).
  split; [exact Ht|]. split; [exact Hti|exact H2].
Defined.



(** ** Setting up the controllers *)

Lemma load_returned self o w s :
  heap s !! self = Some o →
  returned (run_result (load self w s)) = answers w (system_id o).
Proof.
  intros Ho. rewrite (load_run self o w s Ho). unfold answers.
  destruct (get_system w (system_id o)); [|done].
  destruct (get_notifications w (system_id o)); [|done].
  destruct (get_status w (system_id o)); [|done].
  cbn. by rewrite ?bool_decide_eq_true_2 by eauto.
Qed.

(** [load] writes no object but its own. *)
Lemma load_heap_other self a w s :
  a ≠ self → heap (run_state (load self w s)) !! a = heap s !! a.
Proof.
  intros Ha. destruct (heap s !! self) as [o|] eqn:Ho.
  - rewrite (load_run self o w s Ho).
    destruct (get_system w (system_id o)); [|done].
    destruct (get_notifications w (system_id o));
      [destruct (get_status w (system_id o))|];
      cbn; by rewrite lookup_insert_ne.
  - unfold load, deref, bind, get. cbn. by rewrite Ho.
Qed.

Lemma unloaded_controllers_other s s' systems cfg :
  (∀ a, a ∈ systems → heap s' !! a = heap s !! a) →
  unloaded_controllers s systems cfg → unloaded_controllers s' systems cfg.
Proof.
  unfold unloaded_controllers. intros Hsame H.
  induction H as [|a sid systems cfg Ha _ IH]; constructor.
  - rewrite Hsame by (by left). done.
  - apply IH. intros b Hb. apply Hsame. by right.
Qed.

(** The gathered loads return exactly when every system answers; each
    load that returns leaves two tasks behind, and when all return the
    handles held by the controllers are the ones scheduled. *)
Lemma gather_load_run systems : ∀ cfg w s,
  NoDup systems →
  unloaded_controllers s systems cfg →
  let res := gather (load <$> systems) w s in
  returned (run_result res) = forallb (answers w) cfg
  ∧ data (run_state res) = data s
  ∧ next_addr (run_state res) = next_addr s
  ∧ (∀ a, a ∉ systems → heap (run_state res) !! a = heap s !! a)
  ∧ timers (run_state res) =
      timers s ++ seq (next_handle s) (2 * length (filter (λ sid, answers w sid = true) cfg))
  ∧ next_handle (run_state res) =
      (next_handle s + 2 * length (filter (λ sid, answers w sid = true) cfg))%nat
  ∧ (forallb (answers w) cfg = true →
     handles_of (run_state res) systems = seq (next_handle s) (2 * length cfg)
     ∧ valid_refs (run_state res) systems = true).
Proof.
  induction systems as [|a systems IH]; intros cfg w s Hnd Hu res; subst res.
  { inversion Hu; subst. cbn. rewrite app_nil_r, Nat.add_0_r. by repeat split. }
  inversion Hu as [|? sid ? cfg' (o & Ho & Hid & Hun) Hu']; subst.
  apply NoDup_cons in Hnd as [Ha Hnd].
  cbn [fmap list_fmap]. rewrite gather_cons.
  pose proof (load_returned a o w s Ho) as Hret.
  pose proof (λ b, load_heap_other a b w s) as Hother.
  pose proof (load_run a o w s Ho) as Hrun.
  destruct (load a w s) as [[r s1] t1] eqn:Hl. cbn in Hret, Hother.
  assert (Hu1 : unloaded_controllers s1 systems cfg').
  { apply (unloaded_controllers_other s); [|done].
    intros b Hb. apply Hother. by intros ->. }
  change (list_fmap _ _ load systems) with (load <$> systems).
  destruct (IH cfg' w s1 Hnd Hu1) as (IHr & IHd & IHa & IHh & IHt & IHn & IHall).
  destruct (gather (load <$> systems) w s1) as [[rs s2] t2].
  cbn [run_result run_state fst snd] in *.
  cbn [forallb].
  assert (Hs1 : data s1 = data s ∧ next_addr s1 = next_addr s
                ∧ timers s1 = timers s ++ (if answers w (system_id o)
                                           then [next_handle s; S (next_handle s)]
                                           else [])
                ∧ next_handle s1 = (if answers w (system_id o)
                                    then S (S (next_handle s)) else next_handle s)
                ∧ (answers w (system_id o) = true →
                   (_unsub <$> heap s1 !! a) =
                     Some [next_handle s; S (next_handle s)])).
  { unfold answers in *.
    destruct (get_system w (system_id o)); [|simplify_eq; cbn;
      by rewrite app_nil_r].
    destruct (get_notifications w (system_id o)); [|simplify_eq; cbn;
      by rewrite app_nil_r].
    destruct (get_status w (system_id o)); simplify_eq; cbn.
    - rewrite lookup_insert_eq. cbn. by rewrite Hun.
    - by rewrite app_nil_r. }
  destruct Hs1 as (Hd1 & Ha1 & Ht1 & Hn1 & Hun1).
  split.
  { rewrite <-Hret, <-IHr. by destruct r, rs. }
  split; [congruence|]. split; [congruence|]. split.
  { intros b Hb. apply not_elem_of_cons in Hb as [Hb1 Hb2].
    rewrite IHh by done. by apply Hother. }
  destruct (decide (answers w (system_id o) = true)) as [Hans|Hans].
  - rewrite filter_cons_True by done. rewrite Hans in *.
    cbn [length]. replace (2 * S (length (filter (λ sid, answers w sid = true) cfg')))%nat
      with (2 + 2 * length (filter (λ sid, answers w sid = true) cfg'))%nat by lia.
    split.
    { rewrite IHt, Ht1, Hn1, <-app_assoc. done. }
    split; [rewrite IHn, Hn1; lia|].
    cbn [andb]. intros Hall. destruct (IHall Hall) as [IHhs IHv].
    split.
    + unfold handles_of in *. cbn [flat_map].
      rewrite IHh by done. rewrite (Hun1 eq_refl). cbn [default].
      rewrite IHhs, Hn1. cbn [length].
      replace (2 * S (length cfg'))%nat with (2 + 2 * length cfg')%nat by lia.
      done.
    + apply valid_refs_cons. split; [|done].
      rewrite IHh by done. specialize (Hun1 eq_refl).
      destruct (heap s1 !! a); [eauto|done].
  - rewrite filter_cons_False by done.
    apply not_true_is_false in Hans. rewrite Hans in *.
    split; [by rewrite IHt, Ht1, Hn1, app_nil_r|].
    split; [by rewrite IHn, Hn1|]. done.
Qed.

(** The controllers made for the configured systems sit at fresh
    consecutive addresses, one per system, with nothing loaded. *)
Lemma map_m_NibeSystem_init_run cfg : ∀ w s,
  ∃ s',
    map_m NibeSystem_init cfg w s = (Ok (seq (next_addr s) (length cfg)), s', [])
    ∧ data s' = data s
    ∧ timers s' = timers s
    ∧ next_handle s' = next_handle s
    ∧ next_addr s' = (next_addr s + length cfg)%nat
    ∧ unloaded_controllers s' (seq (next_addr s) (length cfg)) cfg
    ∧ (∀ a, (a < next_addr s)%nat → heap s' !! a = heap s !! a).
Proof.
  induction cfg as [|sid cfg IH]; intros w s.
  { exists s. cbn. rewrite Nat.add_0_r. repeat split; try done. constructor. }
  cbn [map_m]. rewrite bind_run. unfold NibeSystem_init at 1.
  rewrite bind_run. unfold get at 1. lazy beta iota zeta.
  rewrite bind_run. unfold put at 1, ret at 1. lazy beta iota.
  rewrite bind_run.
  match goal with |- context [map_m NibeSystem_init cfg w ?s1] =>
    destruct (IH w s1) as (s' & -> & Hd & Ht & Hn & Ha & Hu & Hold)
  end.
  exists s'. cbn in *. split; [done|]. split; [done|]. split; [done|].
  split; [done|]. split; [lia|]. split.
  - constructor; [|done]. rewrite Hold by lia. rewrite lookup_insert_eq.
    eexists. by repeat split.
  - intros a Hlt. rewrite Hold by lia. by rewrite lookup_insert_ne by lia.
Qed.

Lemma async_setup_systems_enter_run cfg w s :
  let res := async_setup_systems_enter cfg w s in
  let systems := seq (next_addr s) (length cfg) in
  returned (run_result res) = forallb (answers w) cfg
  ∧ (returned (run_result res) = true → run_result res = Ok systems)
  ∧ data (run_state res) = data s
  ∧ timers (run_state res) =
      timers s ++ seq (next_handle s)
                    (2 * length (filter (λ sid, answers w sid = true) cfg))
  ∧ (forallb (answers w) cfg = true →
     handles_of (run_state res) systems = seq (next_handle s) (2 * length cfg)
     ∧ valid_refs (run_state res) systems = true).
Proof.
  intros res systems. subst res systems. unfold async_setup_systems_enter.
  rewrite bind_run.
  destruct (map_m_NibeSystem_init_run cfg w s)
    as (s1 & -> & Hd & Ht & Hn & Ha & Hu & _).
  lazy beta iota. rewrite bind_run.
  destruct (gather_load_run (seq (next_addr s) (length cfg)) cfg w s1
              (NoDup_seq _ _) Hu) as (Gr & Gd & _ & _ & Gt & _ & Gall).
  destruct (gather (load <$> seq (next_addr s) (length cfg)) w s1)
    as [[[l|e] s2] t2]; cbn in *.
  - rewrite Hn in Gall. rewrite Gd, Gt, Ht, Hn, Hd.
    split; [done|]. split; [done|]. split; [done|]. split; [done|]. exact Gall.
  - rewrite Gd, Gt, Ht, Hn, Hd.
    split; [done|]. split; [done|]. split; [done|]. split; [done|].
    rewrite <-Gr. done.
Qed.

Lemma forallb_filter_length {A} (f : A → bool) (l : list A) :
  forallb f l = true → length (filter (λ x, f x = true) l) = length l.
Proof.
  induction l as [|x l IH]; [done|]. cbn [forallb].
  intros [Hx Hl]%andb_true_iff. rewrite filter_cons_True by done.
  cbn. by rewrite IH.
Qed.

(** ** Entry points *)

Lemma async_setup_entry_raise_never_returns e w s1 t1 b :
  run_result
    (match aexit (Some e) w s1 with
     | (Ok true, s2, t2) => (Raise UnboundLocalError, s2, t1 ++ t2)
     | (Ok false, s2, t2) => (Raise e, s2, t1 ++ t2)
     | (Raise e', s2, t2) => (Raise e', s2, t1 ++ t2)
     end : Res bool * State * list Event) ≠ Ok b.
Proof. by destruct (aexit (Some e) w s1) as [[[[|]|e'] s2] t2]. Qed.

(** X10.  [async_setup_entry] returns, and then returns [True], exactly
    when the session opens, the client opens and every configured system
    answers its three fetches.  It then has pushed the five entries of
    the chain on [data.stack] in acquisition order, holds one controller
    per configured system, and has scheduled exactly two periodic tasks
    per system, whose cancel functions the controllers hold. *)
Theorem async_setup_entry_returns_iff cfg w s :
  let res := async_setup_entry cfg w s in
  let addrs := seq (next_addr s) (length cfg) in
  (run_result res = Ok true ↔
     session_aenter w = None ∧ uplink_aenter w = None
     ∧ forallb (answers w) cfg = true)
  ∧ (∀ b, run_result res = Ok b → b = true)
  ∧ (run_result res = Ok true →
     data (run_state res) =
       {| session := true; uplink := true; systems := addrs;
          stack := stack (data s) ++ chain addrs;
          skip_reload := skip_reload (data s) |}
     ∧ timers (run_state res) =
         timers s ++ seq (next_handle s) (2 * length cfg)
     ∧ handles_of (run_state res) addrs =
         seq (next_handle s) (2 * length cfg)
     ∧ valid_refs (run_state res) addrs = true).
Proof.
  intros res addrs. subst res addrs.
  rewrite async_setup_entry_run, acquire_run.
  destruct (session_aenter w) as [es|].
  { pose proof (async_setup_entry_raise_never_returns es w
                  (pushed CbUpdateListener s) [EvAddUpdateListener]) as Hn.
    split; [split; [intros H; by apply Hn in H|by intros [? _]]|].
    split; intros; exfalso; eapply Hn; eauto. }
  destruct (uplink_aenter w) as [eu|].
  { pose proof (async_setup_entry_raise_never_returns eu w
                  (pushed CbSession (pushed CbUpdateListener s))
                  [EvAddUpdateListener; EvSessionEnter]) as Hn.
    split; [split; [intros H; by apply Hn in H|by intros (_ & ? & _)]|].
    split; intros; exfalso; eapply Hn; eauto. }
  match goal with |- context [async_setup_systems_enter cfg w ?s0] =>
    destruct (async_setup_systems_enter_run cfg w s0)
      as (Hr & Hok & Hd & Ht & Hall)
  end.
  destruct (async_setup_systems_enter cfg w _) as [[[sys|e] s1] t1];
    cbn [run_result run_state fst snd returned] in *.
  - specialize (Hok eq_refl). injection Hok as ->.
    symmetry in Hr. destruct (Hall Hr) as [Hh Hv].
    split; [by split|]. split; [by intros b [= <-]|]. intros _.
    cbn in *. rewrite Hd. cbn. rewrite <-!app_assoc. split; [done|].
    rewrite Ht. split; [|done].
    by rewrite forallb_filter_length.
  - pose proof (async_setup_entry_raise_never_returns e w s1
                  ([EvAddUpdateListener; EvSessionEnter; EvUplinkEnter] ++ t1)) as Hn.
    split; [split; [intros H; by apply Hn in H|]|].
    + intros (_ & _ & Hf). by rewrite Hf in Hr.
    + split; intros; exfalso; eapply Hn; eauto.
Qed.

(** The exit loop pops every entry and writes nothing else of [data]. *)
Lemma exit_loop_data cbs : ∀ exc a b w s,
  data (run_state (exit_loop cbs exc a b w s)) =
    match cbs with
    | [] => data s
    | _ => {| session := session (data s); uplink := uplink (data s);
              systems := systems (data s); stack := [];
              skip_reload := skip_reload (data s) |}
    end.
Proof.
  induction cbs as [|cb rest IH]; intros exc a b w s; [done|].
  rewrite exit_loop_cons.
  match goal with |- context [run_callback cb exc w ?s0] =>
    pose proof (preserves_run_callback same_data same_data_assign
                  same_data_timers cb exc w s0) as [Hd _];
    destruct (run_callback cb exc w s0) as [[r s1] t1]
  end.
  cbn [run_state fst snd] in Hd.
  assert (Hrest : ∀ exc' a' b',
    data (run_state (exit_loop rest exc' a' b' w s1)) =
      {| session := session (data s); uplink := uplink (data s);
         systems := systems (data s); stack := [];
         skip_reload := skip_reload (data s) |}).
  { intros exc' a' b'. rewrite IH, Hd. by destruct rest. }
  destruct r as [[|]|e];
    [specialize (Hrest None true false)|specialize (Hrest exc a b)
    |specialize (Hrest (Some e) a true)];
    by destruct (exit_loop rest _ _ _ w s1) as [[r2 s2] t2].
Qed.

(** X11.  Whatever [data.stack] holds and whatever raises while it is
    unwound, [async_unload_entry] leaves [data] with no session, no
    client, no systems and an empty stack, and does not touch the
    [skip_reload] counter; it either returns [True] or raises. *)
Theorem async_unload_entry_clears_data w s :
  data (run_state (async_unload_entry w s)) =
    {| session := false; uplink := false; systems := []; stack := [];
       skip_reload := skip_reload (data s) |}
  ∧ (run_result (async_unload_entry w s) = Ok true
     ∨ ∃ e, run_result (async_unload_entry w s) = Raise e).
Proof.
  rewrite async_unload_entry_run, aexit_run.
  match goal with |- context [exit_loop ?cbs None false false w ?s0] =>
    pose proof (exit_loop_data cbs None false false w s0) as Hd;
    destruct (exit_loop cbs None false false w s0)
      as [[[[[ed su] pe]|e] s1] t1]
  end; cbn [run_state fst snd] in Hd.
  - assert (Hs1 : data s1 =
      {| session := false; uplink := false; systems := []; stack := [];
         skip_reload := skip_reload (data s) |}).
    { rewrite Hd. cbn. destruct (rev (stack (data s))) eqn:Hr; [|done].
      apply (f_equal (@rev _)) in Hr. rewrite rev_involutive in Hr.
      by rewrite Hr. }
    destruct pe; [destruct ed|]; cbn; rewrite Hs1; eauto.
  - cbn. split; [|eauto]. rewrite Hd. cbn.
    destruct (rev (stack (data s))) eqn:Hr; [|done].
    apply (f_equal (@rev _)) in Hr. rewrite rev_involutive in Hr.
    by rewrite Hr.
Qed.

(** X12.  Leaving [async_forward_platforms] without an exception asks
    every platform of [FORWARD_PLATFORMS] to unload, in the declared
    order and whatever the earlier ones answered; it raises exactly when
    some platform answered [False].  With an exception in flight no
    platform is asked.  Neither touches the state. *)
Theorem async_forward_platforms_exit_asks_every_platform w s :
  run_trace (async_forward_platforms_exit None w s) =
    EvForwardEntryUnload <$> FORWARD_PLATFORMS
  ∧ run_state (async_forward_platforms_exit None w s) = s
  ∧ (run_result (async_forward_platforms_exit None w s) =
       Raise UnloadPlatformsError
     ↔ ∃ platform, platform ∈ FORWARD_PLATFORMS
                   ∧ forward_entry_unload w platform = false)
  ∧ (run_result (async_forward_platforms_exit None w s) = Ok false
     ↔ ∀ platform, platform ∈ FORWARD_PLATFORMS →
                   forward_entry_unload w platform = true)
  ∧ ∀ e, async_forward_platforms_exit (Some e) w s = (Ok false, s, []).
Proof.
  pose proof (run_callback_forward_platforms w s) as Hrun.
  cbn [run_callback] in Hrun. rewrite Hrun. cbn [run_trace run_state run_result fst snd].
  split; [done|]. split; [done|].
  assert (Hall : all (forward_entry_unload w <$> FORWARD_PLATFORMS) = true
                 ↔ ∀ platform, platform ∈ FORWARD_PLATFORMS →
                               forward_entry_unload w platform = true).
  { unfold all. rewrite forallb_forall. split.
    - intros H p Hp. apply (H (forward_entry_unload w p)).
      apply list_elem_of_In, list_elem_of_fmap. eauto.
    - intros H b Hb. apply list_elem_of_In, list_elem_of_fmap in Hb as (p & -> & Hp).
      by apply H. }
  assert (Hex : all (forward_entry_unload w <$> FORWARD_PLATFORMS) = false
                → ∃ platform, platform ∈ FORWARD_PLATFORMS
                              ∧ forward_entry_unload w platform = false).
  { intros Ha.
    destruct (decide (Exists (λ p, forward_entry_unload w p = false)
                        FORWARD_PLATFORMS)) as [He|Hn].
    - apply Exists_exists in He as (p & Hp & Hf). eauto.
    - assert (all (forward_entry_unload w <$> FORWARD_PLATFORMS) = true);
        [|congruence].
      apply Hall. intros p Hp.
      destruct (forward_entry_unload w p) eqn:Hf; [done|].
      destruct Hn. apply Exists_exists. eauto. }
  destruct (all _) eqn:Ha.
  - split; [split; [done|]|split; [split; [intros _; by apply Hall|done]|done]].
    intros (p & Hp & Hf). rewrite (proj1 Hall eq_refl p Hp) in Hf. done.
  - split; [split; [intros _; by apply Hex|done]|split; [|done]].
    split; [done|]. intros H. apply Hall in H. done.
Qed.

Lemma aexit_data exc w s :
  data (run_state (aexit exc w s)) =
    {| session := session (data s); uplink := uplink (data s);
       systems := systems (data s); stack := [];
       skip_reload := skip_reload (data s) |}.
Proof.
  rewrite aexit_run.
  pose proof (exit_loop_data (rev (stack (data s))) exc false false w s) as Hd.
  destruct (exit_loop _ exc false false w s) as [[[[[ed su] pe]|e] s1] t1];
    cbn [run_state fst snd] in *.
  all: rewrite Hd; destruct (rev (stack (data s))) eqn:Hr; [|done];
    apply (f_equal (@rev _)) in Hr; rewrite rev_involutive in Hr;
    cbn in Hr; destruct (data s); cbn in *; by subst.
Qed.

Lemma scheduled_app t1 t2 : scheduled (t1 ++ t2) = scheduled t1 ++ scheduled t2.
Proof. apply omap_app. Qed.

Lemma scheduled_fmap {A} (f : A → Event) (l : list A) :
  (∀ x, scheduled [f x] = []) → scheduled (f <$> l) = [].
Proof.
  intros Hf. induction l as [|x l IH]; [done|].
  change (f <$> x :: l) with ([f x] ++ (f <$> l)).
  by rewrite scheduled_app, Hf, IH.
Qed.

(** [load] cancels nothing: the timers after it are the timers before it
    and the tasks it started. *)
Lemma load_scheduled self w s :
  timers (run_state (load self w s)) =
    timers s ++ scheduled (run_trace (load self w s)).
Proof.
  destruct (heap s !! self) as [o|] eqn:Ho.
  - rewrite (load_run self o w s Ho).
    assert (Hn : ∀ new, scheduled (first_notifications o new) = []).
    { intros new. unfold first_notifications.
      by rewrite scheduled_app, !scheduled_fmap. }
    destruct (get_system w (system_id o)) as [r|];
      [|by cbn; rewrite app_nil_r].
    destruct (get_notifications w (system_id o)) as [new|];
      [|by cbn; rewrite app_nil_r].
    destruct (get_status w (system_id o)) as [status_icons|];
      cbn [run_state run_trace fst snd timers set_heap].
    + change (device_event o r :: ?t) with ([device_event o r] ++ t).
      by rewrite !scheduled_app, Hn.
    + change (device_event o r :: ?t) with ([device_event o r] ++ t).
      by rewrite scheduled_app, Hn, app_nil_r.
  - unfold load, deref, bind, get. cbn. rewrite Ho. cbn. by rewrite app_nil_r.
Qed.

Lemma gather_load_scheduled systems : ∀ w s,
  timers (run_state (gather (load <$> systems) w s)) =
    timers s ++ scheduled (run_trace (gather (load <$> systems) w s)).
Proof.
  induction systems as [|a systems IH]; intros w s.
  { cbn. by rewrite app_nil_r. }
  cbn [fmap list_fmap]. rewrite gather_cons.
  pose proof (load_scheduled a w s) as Hl.
  destruct (load a w s) as [[r s1] t1].
  change (list_fmap _ _ load systems) with (load <$> systems).
  pose proof (IH w s1) as Hg.
  destruct (gather (load <$> systems) w s1) as [[rs s2] t2].
  cbn [run_state run_trace fst snd] in *.
  by rewrite Hg, Hl, scheduled_app, app_assoc.
Qed.

Lemma async_setup_systems_enter_scheduled cfg w s :
  timers (run_state (async_setup_systems_enter cfg w s)) =
    timers s ++ scheduled (run_trace (async_setup_systems_enter cfg w s)).
Proof.
  unfold async_setup_systems_enter. rewrite bind_run.
  destruct (map_m_NibeSystem_init_run cfg w s) as (s1 & -> & _ & Ht & _).
  lazy beta iota. rewrite bind_run.
  pose proof (gather_load_scheduled (seq (next_addr s) (length cfg)) w s1) as Hg.
  destruct (gather (load <$> seq (next_addr s) (length cfg)) w s1)
    as [[[l|e] s2] t2]; cbn in *; by rewrite Hg, Ht, ?app_nil_r.
Qed.

(** X13.  A setup that fails.  When the session or the client cannot be
    opened, or some configured system does not answer, [async_setup_entry]
    on an empty stack raises; what it had acquired of listener, session
    and client is given back newest first; [data] is as before the call;
    no controller gets an [unload] call and no task is cancelled: the
    timers are those from before the call and every periodic task started
    during it.  Where it is the session or the client that cannot be
    opened, none was started. *)
Theorem async_setup_entry_failure cfg w s :
  stack (data s) = [] →
  session_aenter w ≠ None ∨ uplink_aenter w ≠ None
    ∨ forallb (answers w) cfg = false →
  let res := async_setup_entry cfg w s in
  (∃ e, run_result res = Raise e)
  ∧ filter (λ e, release_event e = true) (run_trace res) = unwound w
  ∧ unloaded (run_trace res) = []
  ∧ data (run_state res) = data s
  ∧ timers (run_state res) = timers s ++ scheduled (run_trace res)
  ∧ (session_aenter w ≠ None ∨ uplink_aenter w ≠ None →
     scheduled (run_trace res) = []).
Proof.
  intros Hs Hfail res. subst res.
  assert (Hnot : ∀ b, run_result (async_setup_entry cfg w s) ≠ Ok b).
  { intros b. rewrite async_setup_entry_run, acquire_run.
    destruct (session_aenter w) as [es|];
      [apply async_setup_entry_raise_never_returns|].
    destruct (uplink_aenter w) as [eu|];
      [apply async_setup_entry_raise_never_returns|].
    destruct Hfail as [?|[?|Hf]]; [done..|].
    match goal with |- context [async_setup_systems_enter cfg w ?s0] =>
      destruct (async_setup_systems_enter_run cfg w s0) as (Hr & _);
      destruct (async_setup_systems_enter cfg w s0) as [[[sys|e] s2] t2]
    end; cbn in Hr; [congruence|].
    apply async_setup_entry_raise_never_returns. }
  destruct (async_setup_entry_failure_unwinds cfg w s Hs Hnot)
    as (Hraise & Hrel & Hunl).
  split; [done|]. split; [done|]. split; [done|].
  clear Hraise Hrel Hunl.
  rewrite async_setup_entry_run in *.
  destruct (acquire cfg w s) as [[[sys|e] s1] t1] eqn:Ha.
  { by destruct (Hnot true). }
  clear Hnot.
  destruct (acquire_raise _ _ _ _ _ _ Ha) as [Hst _]. rewrite Hs in Hst.
  cbn [app] in Hst.
  pose proof (aexit_data (Some e) w s1) as Hd.
  destruct (aexit_held e w s1 Hst) as (r & s' & Hx & _ & _ & _ & Ht).
  rewrite Hx in Hd |- *. cbn [run_state fst snd] in Hd.
  assert (Hu : scheduled (unwound w) = []).
  { unfold unwound. by destruct (session_aenter w), (uplink_aenter w). }
  assert (Hs1 : data s' = data s
    ∧ timers s1 = timers s ++ scheduled t1
    ∧ (session_aenter w ≠ None ∨ uplink_aenter w ≠ None → scheduled t1 = [])).
  { rewrite Hd. clear Hd Hx Ht Hst Hu. rewrite acquire_run in Ha.
    destruct (session_aenter w) as [es|].
    { injection Ha as _ <- <-. cbn. rewrite <-Hs, app_nil_r.
      split; [by destruct (data s)|]. done. }
    destruct (uplink_aenter w) as [eu|].
    { injection Ha as _ <- <-. cbn. rewrite <-Hs, app_nil_r.
      split; [by destruct (data s)|]. done. }
    match type of Ha with context [async_setup_systems_enter cfg w ?s0] =>
      destruct (async_setup_systems_enter_run cfg w s0) as (_ & _ & Hd2 & _);
      pose proof (async_setup_systems_enter_scheduled cfg w s0) as Ht2;
      destruct (async_setup_systems_enter cfg w s0) as [[[sys'|e0] s2] t2]
    end; [done|]. injection Ha as _ <- <-.
    cbn in Hd2, Ht2. rewrite Hd2, Ht2. cbn. rewrite <-Hs.
    split; [by destruct (data s)|]. split; [done|]. intros [?|?]; done. }
  destruct Hs1 as (Hdata & Ht1 & Hnone).
  destruct r as [[|]|e']; cbn [run_state run_trace fst snd];
    rewrite Ht, scheduled_app, Hu, app_nil_r;
    (split; [done|]); (split; [done|]); exact Hnone.
Qed.

Lemma async_setup_entry_failure_witness :
  data (run_state (async_setup_entry [1%Z; 2%Z; 3%Z] system_2_down initial_state)) =
    data initial_state
  ∧ filter (λ e, release_event e = true)
      (run_trace (async_setup_entry [1%Z; 2%Z; 3%Z] system_2_down initial_state)) =
      [EvUplinkExit; EvSessionExit; EvRemoveUpdateListener]
  ∧ timers (run_state (async_setup_entry [1%Z; 2%Z; 3%Z] system_2_down
                         initial_state)) =
      scheduled (run_trace (async_setup_entry [1%Z; 2%Z; 3%Z] system_2_down
                              initial_state)).
Proof.
  destruct (async_setup_entry_failure [1%Z; 2%Z; 3%Z] system_2_down initial_state
              eq_refl (or_intror (or_intror eq_refl)))
    as (_ & Hr & _ & Hd & Ht & _).
  split; [exact Hd|]. split; [exact Hr|exact Ht].
Defined.

(** ** Setup followed by unload *)

Lemma handles_of_cons s a l :
  handles_of s (a :: l) = default [] (_unsub <$> heap s !! a) ++ handles_of s l.
Proof. done. Qed.

Lemma handles_of_ext s s' l :
  (∀ a, a ∈ l → heap s' !! a = heap s !! a) → handles_of s' l = handles_of s l.
Proof.
  intros H. induction l as [|a l IH]; [done|].
  rewrite !handles_of_cons, H by (by left). f_equal.
  apply IH. intros b Hb. apply H. by right.
Qed.

(** The gathered unloads of distinct controllers cancel every task the
    controllers hold and leave them holding none. *)
Lemma gather_unload_state systems : ∀ w s,
  NoDup systems →
  valid_refs s systems = true →
  timers (run_state (gather (unload <$> systems) w s)) =
    filter (λ h, h ∉ handles_of s systems) (timers s)
  ∧ handles_of (run_state (gather (unload <$> systems) w s)) systems = []
  ∧ (∀ b, b ∉ systems →
       heap (run_state (gather (unload <$> systems) w s)) !! b = heap s !! b).
Proof.
  induction systems as [|a l IH]; intros w s Hnd Hv.
  { cbn. split; [|done]. symmetry. apply filter_Forall, Forall_forall.
    intros h _. apply not_elem_of_nil. }
  apply NoDup_cons in Hnd as [Ha Hnd].
  apply valid_refs_cons in Hv as [[o Ho] Hl].
  cbn [fmap list_fmap]. rewrite gather_cons.
  rewrite (unload_cancels_in_reverse a o w s Ho).
  set (s1 := {| heap := <[a:=set_unsub [] o]> (heap s) |}).
  assert (Hm1 : more_heap s s1) by (intros b; apply is_Some_lookup_insert).
  destruct (IH w s1 Hnd (valid_refs_mono s s1 l Hm1 Hl)) as (Ht & Hh & Ho').
  change (list_fmap _ _ unload l) with (unload <$> l).
  destruct (gather (unload <$> l) w s1) as [[rs s2] t2].
  cbn [run_state fst snd] in *.
  assert (Hsame : handles_of s1 l = handles_of s l).
  { apply handles_of_ext. intros b Hb. subst s1. cbn.
    rewrite lookup_insert_ne; [done|]. intros ->. done. }
  split; [|split].
  - rewrite Ht, Hsame. subst s1. cbn [timers]. rewrite list_filter_filter.
    apply list_filter_iff. intros h. rewrite handles_of_cons, Ho. cbn.
    rewrite not_elem_of_app, elem_of_rev_iff. tauto.
  - rewrite handles_of_cons, Hh, (Ho' a Ha). subst s1. cbn.
    by rewrite lookup_insert_eq.
  - intros b Hb. apply not_elem_of_cons in Hb as [Hne Hb].
    rewrite (Ho' b Hb). subst s1. cbn. by rewrite lookup_insert_ne.
Qed.

(** Unloading an acquired chain whose platforms all unload. *)
Lemma async_unload_entry_chain_timers systems w s :
  stack (data s) = chain systems →
  NoDup systems →
  valid_refs s systems = true →
  all (forward_entry_unload w <$> FORWARD_PLATFORMS) = true →
  timers (run_state (async_unload_entry w s)) =
    filter (λ h, h ∉ handles_of s systems) (timers s)
  ∧ handles_of (run_state (async_unload_entry w s)) systems = [].
Proof.
  intros Hs Hnd Hv Hall.
  rewrite async_unload_entry_run, aexit_run.
  cbn [data set_data stack]. rewrite Hs. cbn [rev chain app].
  rewrite exit_loop_cons, run_callback_forward_platforms, Hall. cbn [rev app].
  rewrite exit_loop_cons. cbn [run_callback]. unfold async_setup_systems_exit.
  rewrite bind_run.
  match goal with |- context [gather (unload <$> systems) w ?s0] =>
    destruct (gather_unload_state systems w s0 Hnd Hv) as (Ht & Hh & _);
    destruct (gather_unload systems w s0 Hv) as (s1 & tc & Hg & _);
    rewrite Hg in Ht, Hh |- *
  end.
  cbn [run_state fst snd] in Ht, Hh. unfold ret. lazy beta iota.
  destruct (exit_loop_base None false false w s1)
    as (s2 & -> & _ & Hheap & Htim & _).
  assert (Hh2 : handles_of s2 systems = []).
  { rewrite <-Hh. apply handles_of_ext. intros a _. by rewrite Hheap. }
  destruct (session_aexit w), (uplink_aexit w); cbn [run_state fst snd];
    by rewrite Htim, Ht.
Qed.

(** A setup where everything answers. *)
Lemma async_setup_entry_success cfg w s :
  session_aenter w = None →
  uplink_aenter w = None →
  forallb (answers w) cfg = true →
  run_result (async_setup_entry cfg w s) = Ok true
  ∧ data (run_state (async_setup_entry cfg w s)) =
      {| session := true; uplink := true;
         systems := seq (next_addr s) (length cfg);
         stack := stack (data s) ++ chain (seq (next_addr s) (length cfg));
         skip_reload := skip_reload (data s) |}
  ∧ timers (run_state (async_setup_entry cfg w s)) =
      timers s ++ seq (next_handle s) (2 * length cfg)
  ∧ handles_of (run_state (async_setup_entry cfg w s))
      (seq (next_addr s) (length cfg)) = seq (next_handle s) (2 * length cfg)
  ∧ valid_refs (run_state (async_setup_entry cfg w s))
      (seq (next_addr s) (length cfg)) = true.
Proof.
  intros Hse Hup Hans.
  rewrite async_setup_entry_run, acquire_run, Hse, Hup.
  match goal with |- context [async_setup_systems_enter cfg w ?s0] =>
    destruct (async_setup_systems_enter_run cfg w s0)
      as (Hr & Hok & Hd & Ht & Hall)
  end.
  destruct (async_setup_systems_enter cfg w _) as [[[sys|e] s1] t1];
    cbn [run_result run_state fst snd returned] in *; [|congruence].
  specialize (Hok eq_refl). injection Hok as ->.
  destruct (Hall Hans) as [Hh Hv].
  split; [done|]. cbn in *. rewrite Hd. cbn. rewrite <-!app_assoc.
  split; [done|]. rewrite Ht. split; [|done].
  by rewrite forallb_filter_length.
Qed.

(** X14.  Setup followed by unload.  After a setup on an empty stack that
    returned, an unload during which every platform unloads cancels
    exactly the periodic tasks the setup had scheduled: the scheduler
    holds what it held before the setup, the controllers hold no cancel
    function, and [data] is cleared.  The unload returns [True] unless
    closing the session or the client raises, which is then raised after
    everything was released. *)
Theorem setup_then_unload_restores_timers cfg w w' s :
  stack (data s) = [] →
  Forall (λ h, (h < next_handle s)%nat) (timers s) →
  session_aenter w = None →
  uplink_aenter w = None →
  forallb (answers w) cfg = true →
  (∀ platform, platform ∈ FORWARD_PLATFORMS →
     forward_entry_unload w' platform = true) →
  let s1 := run_state (async_setup_entry cfg w s) in
  let res := async_unload_entry w' s1 in
  run_result res =
    match session_aexit w', uplink_aexit w' with
    | Some e, _ => Raise e
    | None, Some e => Raise e
    | None, None => Ok true
    end
  ∧ timers (run_state res) = timers s
  ∧ handles_of (run_state res) (seq (next_addr s) (length cfg)) = []
  ∧ data (run_state res) =
      {| session := false; uplink := false; systems := []; stack := [];
         skip_reload := skip_reload (data s) |}.
Proof.
  intros Hs Hfresh Hse Hup Hans Hpl s1 res. subst res s1.
  destruct (async_setup_entry_success cfg w s Hse Hup Hans)
    as (_ & Hd & Ht & Hh & Hv).
  set (s1 := run_state (async_setup_entry cfg w s)) in *.
  assert (Hall : all (forward_entry_unload w' <$> FORWARD_PLATFORMS) = true).
  { unfold all. apply forallb_forall. intros b Hb.
    apply list_elem_of_In, list_elem_of_fmap in Hb as (p & -> & Hp). by apply Hpl. }
  assert (Hst : stack (data s1) = chain (seq (next_addr s) (length cfg))).
  { by rewrite Hd, Hs. }
  destruct (async_unload_entry_chain _ w' s1 Hst Hv)
    as (s2 & tc & Hrun & Hd2 & _).
  destruct (async_unload_entry_chain_timers _ w' s1 Hst (NoDup_seq _ _) Hv Hall)
    as (Ht2 & Hh2).
  rewrite Hrun in Ht2, Hh2 |- *. cbn [run_result run_state fst snd] in *.
  split; [|split; [|split]].
  - unfold release_outcome. rewrite Hall.
    by destruct (session_aexit w'), (uplink_aexit w').
  - rewrite Ht2, Hh, Ht, filter_app.
    rewrite (filter_Forall _ (timers s)).
    + rewrite filter_none; [by rewrite app_nil_r|].
      apply Forall_forall. intros h Hh' Hn. done.
    + eapply Forall_impl; [exact Hfresh|]. intros h Hlt Hin.
      apply elem_of_seq in Hin. cbv beta in Hlt. lia.
  - done.
  - rewrite Hd2, Hd. done.
Qed.

Lemma setup_then_unload_restores_timers_witness :
  timers (run_state (async_setup_entry [1%Z; 2%Z] quiet loaded_state_fresh)) =
    [1; 3; 4; 5; 6; 7; 8]%nat
  ∧ run_result (async_unload_entry quiet
      (run_state (async_setup_entry [1%Z; 2%Z] quiet loaded_state_fresh))) = Ok true
  ∧ timers (run_state (async_unload_entry quiet
      (run_state (async_setup_entry [1%Z; 2%Z] quiet loaded_state_fresh)))) =
      [1; 3; 4]%nat.
Proof.
  assert (Hfresh : Forall (λ h, (h < next_handle loaded_state_fresh)%nat)
                     (timers loaded_state_fresh)).
  { repeat constructor. }
  destruct (setup_then_unload_restores_timers [1%Z; 2%Z] quiet quiet
              loaded_state_fresh eq_refl Hfresh eq_refl eq_refl eq_refl
              (λ _ _, eq_refl))
    as (Hr & Ht & _).
  split; [reflexivity|]. split; [exact Hr|exact Ht].
Defined.

(** X15.  Setup followed by an unload during which some platform does
    not unload.  The unload raises; no controller gets an [unload] call,
    so every periodic task the setup scheduled stays scheduled; yet
    [data.stack] is left empty, so that a further unload returns [True]
    and releases none of them either. *)
Theorem stuck_platform_leaves_tasks_scheduled cfg w w' s platform :
  stack (data s) = [] →
  session_aenter w = None →
  uplink_aenter w = None →
  forallb (answers w) cfg = true →
  platform ∈ FORWARD_PLATFORMS →
  forward_entry_unload w' platform = false →
  let s1 := run_state (async_setup_entry cfg w s) in
  let res := async_unload_entry w' s1 in
  run_result res =
    match session_aexit w', uplink_aexit w' with
    | Some e, _ => Raise e
    | None, Some e => Raise e
    | None, None => Raise UnloadPlatformsError
    end
  ∧ unloaded (run_trace res) = []
  ∧ timers (run_state res) = timers s ++ seq (next_handle s) (2 * length cfg)
  ∧ stack (data (run_state res)) = []
  ∧ ∀ w'', run_result (async_unload_entry w'' (run_state res)) = Ok true
           ∧ timers (run_state (async_unload_entry w'' (run_state res))) =
               timers s ++ seq (next_handle s) (2 * length cfg).
Proof.
  intros Hs Hse Hup Hans Hp Hstuck s1 res. subst res s1.
  destruct (async_setup_entry_success cfg w s Hse Hup Hans)
    as (_ & Hd & Ht & _ & Hv).
  set (s1 := run_state (async_setup_entry cfg w s)) in *.
  assert (Hall : all (forward_entry_unload w' <$> FORWARD_PLATFORMS) = false).
  { unfold all. apply not_true_is_false. intros Hall.
    rewrite forallb_forall in Hall.
    specialize (Hall (forward_entry_unload w' platform)).
    rewrite Hstuck in Hall. discriminate Hall.
    apply list_elem_of_In, list_elem_of_fmap. eauto. }
  assert (Hst : stack (data s1) = chain (seq (next_addr s) (length cfg))).
  { by rewrite Hd, Hs. }
  destruct (async_unload_entry_chain _ w' s1 Hst Hv)
    as (s2 & tc & Hrun & Hd2 & _ & _ & _ & Hleft).
  destruct (Hleft Hall) as (-> & _ & Ht2).
  rewrite Hrun. cbn [run_result run_state run_trace fst snd].
  split; [|split; [|split; [|split]]].
  - unfold release_outcome. rewrite Hall.
    by destruct (session_aexit w'), (uplink_aexit w').
  - rewrite !unloaded_app. cbn. done.
  - by rewrite Ht2, Ht.
  - by rewrite Hd2.
  - intros w''. rewrite async_unload_entry_empty_stack by (by rewrite Hd2).
    cbn. by rewrite Ht2, Ht.
Qed.

Lemma stuck_platform_leaves_tasks_scheduled_witness :
  run_result (async_unload_entry fan_stuck
    (run_state (async_setup_entry [1%Z; 2%Z] quiet loaded_state_fresh))) =
    Raise UnloadPlatformsError
  ∧ timers (run_state (async_unload_entry fan_stuck
      (run_state (async_setup_entry [1%Z; 2%Z] quiet loaded_state_fresh)))) =
      [1; 3; 4; 5; 6; 7; 8]%nat.
Proof.
  assert (Hfan : "fan" ∈ FORWARD_PLATFORMS) by compute_done.
  destruct (stuck_platform_leaves_tasks_scheduled [1%Z; 2%Z] quiet fan_stuck
              loaded_state_fresh "fan" eq_refl eq_refl eq_refl eq_refl Hfan
              eq_refl)
    as (Hr & _ & Ht & _).
  split; [exact Hr|exact Ht].
Defined.

(** ** The reload counter over several calls *)

Lemma times_S n (m : M unit) : times (S n) m = (m >> times n m).
Proof. done. Qed.

Lemma async_update_listener_run w s :
  async_update_listener w s =
    if bool_decide (skip_reload (data s) = 0%Z) then (Ok tt, s, [EvReload])
    else (Ok tt,
          set_data {| session := session (data s); uplink := uplink (data s);
                      systems := systems (data s); stack := stack (data s);
                      skip_reload := skip_reload (data s) - 1 |} s, []).
Proof.
  unfold async_update_listener, bind, get, emit, set_skip_reload, modify. cbn.
  by case_bool_decide.
Qed.

Lemma access_data_write_run w s :
  access_data_write w s =
    (Ok tt,
     set_data {| session := session (data s); uplink := uplink (data s);
                 systems := systems (data s); stack := stack (data s);
                 skip_reload := if update_entry w then skip_reload (data s) + 1
                                else skip_reload (data s) + 1 - 1 |} s,
     [EvUpdateEntry]).
Proof.
  unfold access_data_write, bind, get, ask, emit, set_skip_reload, modify. cbn.
  by destruct (update_entry w).
Qed.

Lemma times_async_update_listener n : ∀ w s,
  (0 ≤ skip_reload (data s))%Z →
  run_result (times n async_update_listener w s) = Ok tt
  ∧ run_trace (times n async_update_listener w s) =
      replicate (n - Z.to_nat (skip_reload (data s))) EvReload
  ∧ skip_reload (data (run_state (times n async_update_listener w s))) =
      Z.max 0 (skip_reload (data s) - Z.of_nat n).
Proof.
  induction n as [|n IH]; intros w s Hc.
  { cbn. split; [done|]. split; [done|]. lia. }
  rewrite times_S, bind_run, async_update_listener_run.
  case_bool_decide as H0.
  - destruct (IH w s Hc) as (Hr & Ht & Hk).
    destruct (times n async_update_listener w s) as [[r s2] t2].
    cbn [run_result run_trace run_state fst snd] in *.
    split; [done|]. rewrite Ht, Hk, H0. split; [|lia].
    by replace (S n - Z.to_nat 0)%nat with (S (n - Z.to_nat 0)) by lia.
  - match goal with |- context [times n async_update_listener w ?s0] =>
      destruct (IH w s0) as (Hr & Ht & Hk); [cbn; lia|];
      destruct (times n async_update_listener w s0) as [[r s2] t2]
    end.
    cbn [run_result run_trace run_state fst snd data set_data skip_reload] in *.
    split; [done|]. rewrite Ht, Hk. split; [|lia].
    cbn [app]. f_equal. lia.
Qed.

Lemma times_access_data_write k : ∀ w s,
  update_entry w = true →
  skip_reload (data (run_state (times k access_data_write w s))) =
    (skip_reload (data s) + Z.of_nat k)%Z.
Proof.
  induction k as [|k IH]; intros w s Hw.
  { cbn. lia. }
  rewrite times_S, bind_run, access_data_write_run, Hw.
  match goal with |- context [times k access_data_write w ?s0] =>
    pose proof (IH w s0 Hw) as Hk;
    destruct (times k access_data_write w s0) as [[r s2] t2]
  end.
  cbn [run_state fst snd data set_data skip_reload] in *. lia.
Qed.

(** X16.  The counter says how many listener notifications are swallowed.
    After [k] token writes that changed the entry, of [n] runs of the
    update listener the first [skip_reload] (as it was) plus [k] ask for
    no reload and only count down; every further one asks for a reload
    and leaves the counter at 0. *)
Theorem changed_writes_swallow_as_many_notifications k n w w' s :
  (0 ≤ skip_reload (data s))%Z →
  update_entry w = true →
  let s1 := run_state (times k access_data_write w s) in
  skip_reload (data s1) = (skip_reload (data s) + Z.of_nat k)%Z
  ∧ run_trace (times n async_update_listener w' s1) =
      replicate (n - (Z.to_nat (skip_reload (data s)) + k)) EvReload
  ∧ skip_reload (data (run_state (times n async_update_listener w' s1))) =
      Z.max 0 (skip_reload (data s) + Z.of_nat k - Z.of_nat n).
Proof.
  intros Hc Hw s1. subst s1.
  pose proof (times_access_data_write k w s Hw) as Hk.
  split; [done|].
  destruct (times_async_update_listener n w'
              (run_state (times k access_data_write w s))) as (_ & Ht & Hs);
    [lia|].
  rewrite Ht, Hs, Hk. split; [f_equal; lia|lia].
Qed.

Lemma changed_writes_swallow_as_many_notifications_witness :
  run_trace (times 5 async_update_listener quiet
               (run_state (times 3 access_data_write quiet initial_state))) =
    [EvReload; EvReload].
Proof.
  destruct (changed_writes_swallow_as_many_notifications 3 5 quiet quiet
              initial_state (Z.le_refl 0) eq_refl) as (_ & Ht & _).
  exact Ht.
Defined.

(** ** The configuration mappings *)

Lemma filter_ext_in {A} (P Q : A → Prop) `{!∀ x, Decision (P x)}
    `{!∀ x, Decision (Q x)} (l : list A) :
  (∀ x, x ∈ l → P x ↔ Q x) → filter P l = filter Q l.
Proof.
  induction l as [|x l IH]; intros Hext; [done|].
  assert (Hx : P x ↔ Q x) by (apply Hext; by left).
  assert (Hl : filter P l = filter Q l).
  { apply IH. intros y Hy. apply Hext. by right. }
  destruct (decide (P x)) as [HP|HP].
  - rewrite !filter_cons_True by tauto. by rewrite Hl.
  - rewrite !filter_cons_False by tauto. done.
Qed.

Section config_facts.
Context {V : Type}.
Implicit Types (d : Dict V) (k : string) (v : V).

Lemma dict_keys_set k v d :
  dict_keys (dict_set k v d) =
    if bool_decide (k ∈ dict_keys d) then dict_keys d else dict_keys d ++ [k].
Proof.
  induction d as [|[k' v'] d IH]; [done|]. cbn [dict_set]. unfold dict_keys in *.
  destruct (decide (k' = k)) as [->|Hne]; cbn [fmap list_fmap fst].
  - rewrite bool_decide_eq_true_2; [done|]. by left.
  - rewrite IH. case_bool_decide as Hin.
    + rewrite bool_decide_eq_true_2; [done|]. by right.
    + rewrite bool_decide_eq_false_2; [done|].
      intros [?|?]%elem_of_cons; by simplify_eq.
Qed.

Lemma dict_get_set k k' v d :
  dict_get k' (dict_set k v d) = if decide (k = k') then Some v else dict_get k' d.
Proof.
  induction d as [|[k0 v0] d IH]; cbn [dict_set dict_get]; [done|].
  destruct (decide (k0 = k)) as [->|Hne]; cbn [dict_get].
  - by destruct (decide (k = k')).
  - rewrite IH. destruct (decide (k0 = k')) as [->|?]; [|done].
    by rewrite decide_False by done.
Qed.

Lemma dict_get_None k d : dict_get k d = None ↔ k ∉ dict_keys d.
Proof.
  unfold dict_keys. induction d as [|[k0 v0] d IH]; cbn.
  - split; [intros _; apply not_elem_of_nil|done].
  - rewrite not_elem_of_cons. destruct (decide (k0 = k)) as [->|Hne].
    + split; [done|]. by intros [? _].
    + rewrite IH. split; [by intros ?; split|by intros [_ ?]].
Qed.

Lemma dict_set_NoDup k v d : NoDup (dict_keys d) → NoDup (dict_keys (dict_set k v d)).
Proof.
  intros Hd. rewrite dict_keys_set. case_bool_decide as Hin; [done|].
  apply NoDup_app. split; [done|]. split; [|apply NoDup_singleton].
  intros x Hx ->%list_elem_of_singleton. done.
Qed.

Section dictify.
Variable item_key : V → Z.

Lemma list_to_dict_snoc data value :
  list_to_dict item_key (data ++ [value]) =
    dict_set (str (item_key value)) value (list_to_dict item_key data).
Proof. unfold list_to_dict. by rewrite foldl_app. Qed.

(** X17.  [dictify]'s list form.  The mapping made of a list of items has
    one key per distinct id, the decimal string of the id; looking an id
    up gives the last item of the list that carries it; the single-item
    form is the list form of a list of one. *)
Theorem list_to_dict_last_item_wins (data : list V) :
  NoDup (dict_keys (list_to_dict item_key data))
  ∧ (∀ k, k ∈ dict_keys (list_to_dict item_key data)
          ↔ ∃ value, value ∈ data ∧ k = str (item_key value))
  ∧ (∀ id, dict_get (str id) (list_to_dict item_key data) =
           last (filter (λ value, item_key value = id) data))
  ∧ (∀ value, value_to_dict item_key value = list_to_dict item_key [value]).
Proof.
  split; [|split; [|split; [|done]]].
  - induction data as [|value data IH] using rev_ind; [constructor|].
    rewrite list_to_dict_snoc. by apply dict_set_NoDup.
  - induction data as [|value data IH] using rev_ind; intros k.
    { split; [by intros ?%elem_of_nil|]. by intros (? & ?%elem_of_nil & _). }
    rewrite list_to_dict_snoc, dict_keys_set.
    assert (Hgoal : k ∈ dict_keys (list_to_dict item_key data) ++
                          [str (item_key value)]
                    ↔ ∃ value0, value0 ∈ data ++ [value] ∧ k = str (item_key value0)).
    { rewrite elem_of_app, IH, list_elem_of_singleton. split.
      - intros [(v0 & Hv0 & ->)| ->].
        + exists v0. split; [|done]. apply elem_of_app. by left.
        + exists value. split; [|done]. apply elem_of_app. right. by left.
      - intros (v0 & [Hv0| ->%list_elem_of_singleton]%elem_of_app & ->); eauto. }
    case_bool_decide as Hin; [|done].
    rewrite <-Hgoal, elem_of_app, list_elem_of_singleton.
    split; [by left|]. intros [?| ->]; done.
  - induction data as [|value data IH] using rev_ind; intros id; [done|].
    rewrite list_to_dict_snoc, dict_get_set, filter_app, IH.
    destruct (decide (str (item_key value) = str id)) as [Heq|Hne].
    + apply str_inj in Heq. rewrite filter_cons_True by done.
      rewrite filter_nil. by rewrite last_snoc.
    + rewrite filter_cons_False by (intros Heq; by rewrite Heq in Hne).
      by rewrite filter_nil, app_nil_r.
Qed.

End dictify.

Section merged.
Variable default_system : V.

Lemma merge_cons config system keys :
  _get_merged_config default_system config (Some (system :: keys)) =
    _get_merged_config default_system
      (if bool_decide (system ∈ dict_keys config) then config
       else dict_set system default_system config) (Some keys).
Proof. done. Qed.

Lemma merge_lookup keys : ∀ config k,
  dict_get k (_get_merged_config default_system config (Some keys)) =
    match dict_get k config with
    | Some v => Some v
    | None => if bool_decide (k ∈ keys) then Some default_system else None
    end.
Proof.
  induction keys as [|x keys IH]; intros config k.
  { cbn. by destruct (dict_get k config). }
  rewrite merge_cons, IH. case_bool_decide as Hx.
  - destruct (dict_get k config) eqn:Hk; [done|].
    apply dict_get_None in Hk.
    assert (k ≠ x) by (intros ->; done).
    case_bool_decide as Hin.
    + rewrite bool_decide_eq_true_2; [done|]. by right.
    + rewrite bool_decide_eq_false_2; [done|].
      intros [?|?]%elem_of_cons; done.
  - rewrite dict_get_set. destruct (decide (x = k)) as [->|Hne].
    + apply dict_get_None in Hx. rewrite Hx.
      rewrite bool_decide_eq_true_2; [done|]. by left.
    + destruct (dict_get k config); [done|].
      case_bool_decide as Hin.
      * rewrite bool_decide_eq_true_2; [done|]. by right.
      * rewrite bool_decide_eq_false_2; [done|].
        intros [?|?]%elem_of_cons; done.
Qed.

Lemma merge_present keys : ∀ config,
  (∀ k, k ∈ keys → k ∈ dict_keys config) →
  _get_merged_config default_system config (Some keys) = config.
Proof.
  induction keys as [|x keys IH]; intros config Hin; [done|].
  rewrite merge_cons, bool_decide_eq_true_2 by (apply Hin; by left).
  apply IH. intros k Hk. apply Hin. by right.
Qed.

Lemma merge_keys keys : ∀ config,
  NoDup keys →
  dict_keys (_get_merged_config default_system config (Some keys)) =
    dict_keys config ++ filter (λ k, k ∉ dict_keys config) keys.
Proof.
  induction keys as [|x keys IH]; intros config Hnd.
  { cbn. by rewrite app_nil_r. }
  apply NoDup_cons in Hnd as [Hx Hnd].
  rewrite merge_cons, IH by done. case_bool_decide as Hin.
  - rewrite filter_cons_False; [done|]. by intros ?.
  - rewrite filter_cons_True by done. rewrite dict_keys_set.
    rewrite bool_decide_eq_false_2 by done. rewrite <-app_assoc. cbn [app].
    do 2 f_equal. apply filter_ext_in. intros k Hk.
    rewrite not_elem_of_app, list_elem_of_singleton.
    split; [by intros [? _]|]. intros ?. split; [done|]. by intros ->.
Qed.

(** X18.  [_get_merged_config] with an entry that lists systems: every
    system the configuration knew keeps its configuration, every system
    only the entry lists gets the default one, and no other key appears.
    Merging the same entry again changes nothing; an entry without a
    systems key leaves the mapping alone. *)
Theorem get_merged_config_lookup (config : Dict V) (keys : list string) :
  (∀ k, dict_get k (_get_merged_config default_system config (Some keys)) =
        match dict_get k config with
        | Some v => Some v
        | None => if bool_decide (k ∈ keys) then Some default_system else None
        end)
  ∧ _get_merged_config default_system
      (_get_merged_config default_system config (Some keys)) (Some keys) =
      _get_merged_config default_system config (Some keys)
  ∧ _get_merged_config default_system
      (_get_merged_config default_system config (Some keys)) None =
      _get_merged_config default_system config (Some keys).
Proof.
  split; [apply merge_lookup|]. split; [|done].
  apply merge_present. intros k Hk.
  destruct (decide (k ∈ dict_keys (_get_merged_config default_system config
                                     (Some keys)))) as [?|Hn]; [done|].
  apply dict_get_None in Hn. rewrite merge_lookup in Hn.
  rewrite bool_decide_eq_true_2 in Hn by done. by destruct (dict_get k config).
Qed.

(** X19.  The merged mapping lists the configured systems first, in
    their order, then the systems only the entry has, in the entry's
    order.  A later merge with another entry drops none of them: what an
    earlier entry added to the shared mapping stays. *)
Theorem get_merged_config_keys (config : Dict V) (keys : list string) :
  NoDup keys →
  dict_keys (_get_merged_config default_system config (Some keys)) =
    dict_keys config ++ filter (λ k, k ∉ dict_keys config) keys
  ∧ ∀ entry_systems k,
      k ∈ dict_keys (_get_merged_config default_system config (Some keys)) →
      dict_get k (_get_merged_config default_system
                    (_get_merged_config default_system config (Some keys))
                    entry_systems) =
        dict_get k (_get_merged_config default_system config (Some keys)).
Proof.
  intros Hnd. split; [by apply merge_keys|].
  intros [keys'|] k Hk; [|done]. rewrite (merge_lookup keys').
  destruct (dict_get k (_get_merged_config default_system config (Some keys)))
    eqn:Hg; [done|].
  by apply dict_get_None in Hg.
Qed.

End merged.
End config_facts.

Lemma get_merged_config_keys_witness :
  dict_keys (_get_merged_config 0%Z [("1", 10%Z); ("3", 30%Z)]
               (Some ["3"; "2"; "1"; "4"])) = ["1"; "3"; "2"; "4"].
Proof.
  assert (Hnd : NoDup ["3"; "2"; "1"; "4"]) by compute_done.
  destruct (get_merged_config_keys 0%Z [("1", 10%Z); ("3", 30%Z)]
              ["3"; "2"; "1"; "4"] Hnd) as [Hk _].
  exact Hk.
Defined.

